(** * Graphshell review automation: a shallow embedding and its properties

    The development follows two scripts of the repository:
    - [.github/scripts/claude_review.py]: the staleness oracle
      ([should_review_pr], [should_review_issue]), the context selector
      ([select_docs], [read_doc]) and the orchestrator ([main]);
    - [scripts/dev/license_gate.py]: the SPDX expression check.

    Python text is modelled by [string] (one [ascii] per character, so the
    model covers ASCII text), integers and instants by [Z], sets by [gset],
    [os.environ] by a [gmap], and code that talks to GitHub, the disk or the
    generator by a state-and-exception monad over an explicit [World]. *)

From Stdlib Require Import ZArith Ascii String List Bool Lia DecimalString DecimalNat.
From stdpp Require Import base option list strings gmap sorting.

Local Open Scope Z_scope.

(** ** Python string primitives *)

Module PyStr.

Definition chars (s : string) : list ascii := String.list_ascii_of_string s.
Definition of_chars (l : list ascii) : string := String.string_of_list_ascii l.

Definition is_upper (c : ascii) : bool :=
  let n := nat_of_ascii c in (Nat.leb 65 n && Nat.leb n 90)%bool.
Definition is_lower (c : ascii) : bool :=
  let n := nat_of_ascii c in (Nat.leb 97 n && Nat.leb n 122)%bool.
Definition is_digit (c : ascii) : bool :=
  let n := nat_of_ascii c in (Nat.leb 48 n && Nat.leb n 57)%bool.
Definition is_alnum (c : ascii) : bool := is_upper c || is_lower c || is_digit c.

(** [str.isspace] on the ASCII range: TAB..CR, FS..US and the blank. *)
Definition is_space (c : ascii) : bool :=
  let n := nat_of_ascii c in
  (Nat.leb 9 n && Nat.leb n 13) || (Nat.leb 28 n && Nat.leb n 32).

Definition lower_char (c : ascii) : ascii :=
  if is_upper c then ascii_of_nat (nat_of_ascii c + 32) else c.

(** [s.lower()] *)
Definition lower (s : string) : string := of_chars (map lower_char (chars s)).

(** [l] is a prefix of [t], on character lists *)
Fixpoint starts (l t : list ascii) : bool :=
  match l, t with
  | [], _ => true
  | a :: l', b :: t' => bool_decide (a = b) && starts l' t'
  | _ :: _, [] => false
  end.

(** [s.startswith(p)] *)
Definition startswith (s p : string) : bool := starts (chars p) (chars s).

Fixpoint occurs (l t : list ascii) : bool :=
  starts l t || match t with [] => false | _ :: t' => occurs l t' end.

(** [needle in hay] for two strings *)
Definition contains (needle hay : string) : bool := occurs (chars needle) (chars hay).

(** [s[n:]] *)
Definition slice_from (n : nat) (s : string) : string := of_chars (drop n (chars s)).

(** [s.strip()] *)
Fixpoint lstrip_chars (l : list ascii) : list ascii :=
  match l with
  | c :: l' => if is_space c then lstrip_chars l' else l
  | [] => []
  end.
Definition strip (s : string) : string :=
  of_chars (rev (lstrip_chars (rev (lstrip_chars (chars s))))).

(** [s.split(sep)] for a one-character separator *)
Fixpoint split_chars (sep : ascii) (cur l : list ascii) : list (list ascii) :=
  match l with
  | [] => [rev cur]
  | c :: l' =>
      if bool_decide (c = sep) then rev cur :: split_chars sep [] l'
      else split_chars sep (c :: cur) l'
  end.
Definition split (sep : ascii) (s : string) : list string :=
  map of_chars (split_chars sep [] (chars s)).

(** [s.splitlines()]: the ASCII line boundaries are LF, VT, FF, CR, CR LF,
    FS, GS and RS. *)
Definition is_linebreak (c : ascii) : bool :=
  let n := nat_of_ascii c in
  (Nat.leb 10 n && Nat.leb n 13) || (Nat.leb 28 n && Nat.leb n 30).

Fixpoint splitlines_chars (cur l : list ascii) : list (list ascii) :=
  match l with
  | [] => match cur with [] => [] | _ :: _ => [rev cur] end
  | c :: l' =>
      if is_linebreak c then
        match l' with
        | c' :: l'' =>
            if bool_decide (c = "013"%char) && bool_decide (c' = "010"%char)
            then rev cur :: splitlines_chars [] l''
            else rev cur :: splitlines_chars [] l'
        | [] => [rev cur]
        end
      else splitlines_chars (c :: cur) l'
  end.
Definition splitlines (s : string) : list string :=
  map of_chars (splitlines_chars [] (chars s)).

(** The newline character as a string. *)
Definition nl : string := String "010"%char "".

(** [str(n)] for a natural number *)
Definition str_nat (n : nat) : string := NilZero.string_of_uint (Nat.to_uint n).

(** [str(z)] for an integer *)
Definition str_Z (z : Z) : string := NilZero.string_of_int (Z.to_int z).

(** [sep.join(parts)] *)
Fixpoint join (sep : string) (parts : list string) : string :=
  match parts with
  | [] => ""
  | [p] => p
  | p :: rest => p +:+ sep +:+ join sep rest
  end.

End PyStr.

(** ** Keyword patterns

    [select_docs] turns a keyword into a regular expression with
    [kw.replace(".", r"\W*")] and hands it to [re.search].  Every keyword of
    [KEYWORD_DOC_MAP] consists of lower-case letters, digits and dots, so
    the resulting expression is a sequence of literal characters and
    [\W*] items; [token] is that fragment of the regular-expression
    syntax. *)

Module Regex.

Inductive token :=
| Lit (c : ascii)      (* a literal character *)
| NonWordStar.         (* [\W*] *)

(** [\w] on ASCII text: a letter, a digit or the underscore. *)
Definition is_word (c : ascii) : bool :=
  PyStr.is_alnum c || bool_decide (c = "_"%char).

(** [kw.replace(".", r"\W*")], read as a pattern *)
Definition compile (kw : string) : list token :=
  map (fun c => if bool_decide (c = "."%char) then NonWordStar else Lit c)
      (PyStr.chars kw).

(** The keyword is made of lower-case letters, digits and dots: apart from
    the dot it has no character that [re] would read as an operator, and
    no capital that a lower-cased text could never meet. *)
Definition plain_keyword (kw : string) : bool :=
  forallb (fun c => PyStr.is_lower c || PyStr.is_digit c || bool_decide (c = "."%char))
          (PyStr.chars kw).

(** A match of the pattern that starts at the head of the text:
    [re.match].  [\W*] is tried with every number of non-word characters
    it can take, so backtracking cannot lose a match. *)
Fixpoint match_here (p : list token) : list ascii -> bool :=
  match p with
  | [] => fun _ => true
  | Lit c :: p' =>
      fun t => match t with
               | c' :: t' => bool_decide (c = c') && match_here p' t'
               | [] => false
               end
  | NonWordStar :: p' =>
      fix skip (t : list ascii) : bool :=
        match_here p' t ||
        match t with
        | c :: t' => negb (is_word c) && skip t'
        | [] => false
        end
  end.

(** [re.search(p, t) is not None]: a match starting at some position *)
Fixpoint search (p : list token) (t : list ascii) : bool :=
  match_here p t || match t with [] => false | _ :: t' => search p t' end.

(** The words a pattern denotes. *)
Inductive denotes : list token -> list ascii -> Prop :=
| denotes_nil : denotes [] []
| denotes_lit c p w : denotes p w -> denotes (Lit c :: p) (c :: w)
| denotes_star p sep w :
    Forall (fun c => is_word c = false) sep ->
    denotes p w -> denotes (NonWordStar :: p) (sep ++ w).

End Regex.

(** ** Design documents: [ALWAYS_INCLUDE_DOCS], [KEYWORD_DOC_MAP],
    [read_doc], [select_docs] *)

Module Docs.

(** A [pathlib.Path], as its parts; equality of paths is equality of parts. *)
Definition Path := list string.

(** [str(path)] *)
Definition path_str (p : Path) : string := PyStr.join "/" p.

Definition DESIGN_DOCS_ROOT : Path := ["design_docs"].

Definition strategy (name : string) : Path :=
  DESIGN_DOCS_ROOT ++ ["graphshell_docs"; "implementation_strategy"; name].
Definition research (name : string) : Path :=
  DESIGN_DOCS_ROOT ++ ["graphshell_docs"; "research"; name].

Definition ALWAYS_INCLUDE_DOCS : list Path :=
  [ DESIGN_DOCS_ROOT ++ ["TERMINOLOGY.md"];
    strategy "IMPLEMENTATION_ROADMAP.md";
    strategy "2026-02-24_immediate_priorities.md" ].

Definition KEYWORD_DOC_MAP : list (list string * Path) :=
  [ (["physics"; "reheat"; "simulation"; "force"],
     strategy "2026-02-24_physics_engine_extensibility_plan.md");
    (["registry"; "lens"; "layout"; "theme"; "canvas"],
     strategy "2026-02-22_registry_layer_plan.md");
    (["traversal"; "history"; "webview"; "url"],
     strategy "2026-02-20_edge_traversal_impl_plan.md");
    (["render"; "radial"; "palette"; "command"; "action"],
     strategy "2026-02-23_graph_interaction_consistency_plan.md");
    (["diagnostic"; "channel"; "severity"; "observability"],
     research "2026-02-24_diagnostics_research.md");
    (["pane"; "tile"; "workbench"; "split"; "tab"],
     strategy "2026-02-22_workbench_tab_semantics_overlay_and_promotion_plan.md");
    (["graph"; "node"; "edge"; "lasso"; "select"; "multi"],
     research "2026-02-18_graph_ux_research_report.md");
    (["multi.view"; "view.state"; "view.id"; "graphviewid"],
     strategy "2026-02-22_multi_graph_pane_plan.md");
    (["embedder"; "wry"; "verso"; "webview"],
     strategy "2026-02-23_wry_integration_strategy.md");
    (["badge"; "tag"; "udc"; "semantic"],
     strategy "2026-02-23_udc_semantic_tagging_plan.md");
    (["accessibility"; "screen.reader"; "graph.reader"; "a11y"],
     strategy "2026-02-24_spatial_accessibility_plan.md");
    (["export"; "html"; "interactive"; "artifact"],
     strategy "2026-02-25_interactive_html_export_plan.md");
    (["viewport"; "culling"; "lod"; "zoom"; "label"],
     strategy "2026-02-24_performance_tuning_plan.md");
    (["verse"; "sync"; "peer"; "identity"; "trust"],
     DESIGN_DOCS_ROOT ++
       ["verse_docs"; "implementation_strategy"; "2026-02-18_verse_integration_plan.md"]);
    (["settings"; "config"; "profile"],
     strategy "2026-02-20_settings_architecture_plan.md");
    (["backlog"; "ticket"; "stub"],
     strategy "2026-02-25_backlog_ticket_stubs.md") ].

(** What the checkout holds at a path: a text file, or something that
    exists but that [read_text] cannot return (a directory, bytes that are
    not UTF-8). *)
Inductive entry :=
| TextFile (content : string)
| Unreadable.

(** The checkout: [None] where nothing exists. *)
Definition Disk := Path -> option entry.

(** [path.exists()] *)
Definition exists_ (disk : Disk) (p : Path) : bool :=
  match disk p with Some _ => true | None => false end.

(** [re.search(kw.replace(".", r"\W*"), text_lower)] as a truth value *)
Definition keyword_hits (text_lower kw : string) : bool :=
  Regex.search (Regex.compile kw) (PyStr.chars text_lower).

(** The body of the loop of [select_docs] for one rule. *)
Definition select_step (disk : Disk) (text_lower : string)
    (selected : list Path) (rule : list string * Path) : list Path :=
  let '(keywords, doc_path) := rule in
  if existsb (keyword_hits text_lower) keywords then
    if negb (bool_decide (doc_path ∈ selected)) && exists_ disk doc_path
    then selected ++ [doc_path]
    else selected
  else selected.

Definition select_docs (disk : Disk) (text : string) : list Path :=
  let text_lower := PyStr.lower text in
  fold_left (select_step disk text_lower) KEYWORD_DOC_MAP ALWAYS_INCLUDE_DOCS.

(** [read_doc]: the content, the placeholder when nothing is there, and
    [None] when [read_text] raises. *)
Definition read_doc (disk : Disk) (p : Path) : option string :=
  match disk p with
  | Some (TextFile content) => Some content
  | Some Unreadable => None
  | None => Some ("(file not found: " +:+ path_str p +:+ ")")
  end.

End Docs.

(** ** Exceptions, and the monad of code with effects *)

Inductive exn :=
| HTTPError              (* [raise_for_status], or a failed request *)
| KeyError
| TypeError
| AttributeError
| ValueError
| OSError                (* [read_text] on something that is not text *)
| GeneratorError         (* the generation client failed *)
| SystemExit (code : Z)
| OutOfFuel.             (* not Python's: a paging loop outran the model's fuel *)

Inductive result (A : Type) :=
| Ok (a : A)
| Raise (e : exn).
Arguments Ok {A} a.
Arguments Raise {A} e.

(** ** The staleness oracle and the orchestrator of [claude_review.py] *)

Module Review.
Import Docs.

(** Marker embedded in every review comment. *)
Definition REVIEW_MARKER : string := "<!-- claude-review -->".

(** An instant ([datetime] with a zone), in microseconds since the epoch;
    [datetime.fromisoformat] is not modelled. *)
Definition instant := Z.

(** A comment of the issues endpoint.  [body] is [None] when the key is
    absent, [updated_at] is [None] when the key is absent. *)
Record Comment := {
  body : option string;
  updated_at : option instant;
}.

(** A commit of a pull request: the two dates the script looks at, [None]
    for an absent or empty one. *)
Record Commit := {
  committer_date : option instant;
  author_date : option instant;
}.

(** A pull request or an issue as the API returns it, with the fields the
    script reads.  [descr] is [None] for a JSON [null]. *)
Record Item := {
  number : Z;
  title : string;
  descr : option string;
  labels : list string;
  is_pull_request : bool;     (* the item has a "pull_request" key *)
}.

(** What [gh_get] returns where the script expects a list. *)
Inductive payload (A : Type) :=
| NonList
| Items (l : list A).
Arguments NonList {A}.
Arguments Items {A} l.

(** The repository on GitHub, one field per endpoint the script calls. *)
Record GitHub := {
  pull : Z -> result Item;                             (* GET /pulls/n *)
  issue : Z -> result Item;                            (* GET /issues/n *)
  pull_diff : Z -> result (option string);             (* the diff, [None] unless status 200 *)
  pull_files : Z -> result (payload string);           (* GET /pulls/n/files, the filenames *)
  issue_comments : Z -> result (payload Comment);      (* GET /issues/n/comments *)
  pull_commits : Z -> result (payload Commit);         (* GET /pulls/n/commits *)
  open_pulls : nat -> result (payload Item);           (* GET /pulls?state=open, page k *)
  open_issues : string -> nat -> result (payload Item);(* GET /issues?labels=l, page k *)
  accepts_comment : Z -> bool;                         (* POST /issues/n/comments succeeds *)
  now : instant;                                       (* the server's clock *)
}.

(** Lines written by [print]. *)
Inductive event :=
| MissingConfig (name : string)       (* "ERROR: <name> is not set", on stderr *)
| NoFileChanges (n : Z)               (* "PR #n: no file changes ..." *)
| ReviewingPR (n : Z)
| ReviewingIssue (n : Z)
| PostedComment (n : Z)               (* "Posted review comment to #n" *)
| PRUpToDate (n : Z)                  (* "PR #n: already up-to-date, skipping" *)
| IssueAlreadyReviewed (n : Z)        (* "Issue #n: already reviewed, skipping" *)
| ScanMode                            (* "Scan mode: finding all labeled ..." *)
| Done (reviewed : nat).              (* "Done. k review(s) posted." *)

Record World := {
  github : GitHub;
  generator : string -> result string;   (* the reply to a prompt *)
  disk : Disk;
  posted : list (Z * string);            (* comments posted so far, oldest first *)
  output : list event;                   (* lines printed so far, oldest first *)
}.

Definition M (A : Type) : Type := World -> result A * World.

Definition ret {A} (a : A) : M A := fun w => (Ok a, w).
Definition raise {A} (e : exn) : M A := fun w => (Raise e, w).
Definition bind {A B} (c : M A) (k : A -> M B) : M B :=
  fun w => match c w with
           | (Ok a, w') => k a w'
           | (Raise e, w') => (Raise e, w')
           end.

Declare Scope py_scope.
Delimit Scope py_scope with py.
Notation "x <- c ;; k" := (bind c (fun x => k))
  (at level 100, c at next level, right associativity) : py_scope.
Notation "c ;;; k" := (bind c (fun _ => k))
  (at level 100, right associativity) : py_scope.
Local Open Scope py_scope.

(** A call that only reads the world. *)
Definition ask {A} (f : World -> result A) : M A := fun w => (f w, w).

(** The world after one more printed line. *)
Definition logged (w : World) (e : event) : World :=
  {| github := github w; generator := generator w; disk := disk w;
     posted := posted w; output := output w ++ [e] |}.

Definition print (e : event) : M unit := fun w => (Ok tt, logged w e).

(** *** GitHub helpers *)

Definition get_pr (pr_number : Z) : M Item := ask (fun w => pull (github w) pr_number).
Definition get_issue (issue_number : Z) : M Item := ask (fun w => issue (github w) issue_number).

(** The diff, cut to its first 300 lines. *)
Definition get_pr_diff (pr_number : Z) : M string :=
  r <- ask (fun w => pull_diff (github w) pr_number) ;;
  match r with
  | None => ret "(diff not available)"
  | Some text =>
      let lines := PyStr.splitlines text in
      let lines :=
        if Nat.ltb 300 (length lines) then
          take 300 lines ++
            [PyStr.nl +:+ "... (" +:+ PyStr.str_nat (length lines - 300)
               +:+ " more lines truncated)"]
        else lines in
      ret (PyStr.join PyStr.nl lines)
  end.

Definition as_list {A} (p : payload A) : list A :=
  match p with Items l => l | NonList => [] end.

Definition get_pr_files (pr_number : Z) : M (list string) :=
  files <- ask (fun w => pull_files (github w) pr_number) ;;
  ret (as_list files).

Definition get_issue_comments (issue_number : Z) : M (list Comment) :=
  comments <- ask (fun w => issue_comments (github w) issue_number) ;;
  ret (as_list comments).

Definition get_pr_comments (pr_number : Z) : M (list Comment) :=
  get_issue_comments pr_number.

(** [REVIEW_MARKER in c.get("body", "")] *)
Definition has_marker (c : Comment) : bool :=
  PyStr.contains REVIEW_MARKER (default "" (body c)).

(** The first marked comment met when walking the list backwards. *)
Definition get_last_claude_review (comments : list Comment) : option Comment :=
  find has_marker (rev comments).

(** [c...committer...date or c...author...date] *)
Definition commit_date (c : Commit) : option instant :=
  match committer_date c with
  | Some ts => Some ts
  | None => author_date c
  end.

(** [max(times) if times else None] *)
Definition latest (times : list instant) : option instant :=
  match times with
  | [] => None
  | t :: rest => Some (fold_left Z.max rest t)
  end.

Definition get_pr_latest_commit_time (pr_number : Z) : M (option instant) :=
  commits <- ask (fun w => pull_commits (github w) pr_number) ;;
  match commits with
  | NonList | Items [] => ret None
  | Items cs => ret (latest (omap commit_date cs))
  end.

(** The repository after the server has stored one more comment on item
    [n]: later reads of its comments see it at the end of the page. *)
Definition add_comment (gh : GitHub) (n : Z) (c : Comment) : GitHub :=
  {| pull := pull gh; issue := issue gh; pull_diff := pull_diff gh;
     pull_files := pull_files gh;
     issue_comments := fun m =>
       if bool_decide (m = n) then
         match issue_comments gh m with
         | Ok (Items l) => Ok (Items (l ++ [c]))
         | other => other
         end
       else issue_comments gh m;
     pull_commits := pull_commits gh; open_pulls := open_pulls gh;
     open_issues := open_issues gh; accepts_comment := accepts_comment gh;
     now := now gh |}.

(** [gh_post] followed by the [print]; the server stamps the comment with
    its own clock.  A refused request raises and prints nothing. *)
Definition post_comment (issue_number : Z) (text : string) : M unit :=
  fun w =>
    if accepts_comment (github w) issue_number then
      print (PostedComment issue_number)
        {| github := add_comment (github w) issue_number
                       {| body := Some text; updated_at := Some (now (github w)) |};
           generator := generator w; disk := disk w;
           posted := posted w ++ [(issue_number, text)];
           output := output w |}
    else (Raise HTTPError, w).

(** *** Review orchestration *)

Definition should_review_pr (pr_number : Z) (force : bool) : M bool :=
  if force then ret true else
  files <- get_pr_files pr_number ;;
  match files with
  | [] => print (NoFileChanges pr_number) ;;; ret false
  | _ :: _ =>
      comments <- get_pr_comments pr_number ;;
      match get_last_claude_review comments with
      | None => ret true
      | Some last_review =>
          review_time <- match updated_at last_review with
                         | Some t => ret t
                         | None => raise KeyError
                         end ;;
          latest_commit <- get_pr_latest_commit_time pr_number ;;
          match latest_commit with
          | None => ret false
          | Some t => ret (review_time <? t)
          end
      end
  end.

Definition should_review_issue (issue_number : Z) (force : bool) : M bool :=
  if force then ret true else
  comments <- get_issue_comments issue_number ;;
  ret (match get_last_claude_review comments with None => true | Some _ => false end).

(** *** Loading the selected documents *)

(** [load_docs]: each document under a heading, cut to its first 150
    lines. *)
Definition load_one (p : Path) : M string :=
  content <- ask (fun w => match read_doc (disk w) p with
                           | Some text => Ok text
                           | None => Raise OSError
                           end) ;;
  let lines := PyStr.splitlines content in
  let content :=
    if Nat.ltb 150 (length lines) then
      PyStr.join PyStr.nl (take 150 lines) +:+ PyStr.nl +:+ PyStr.nl +:+ "... ("
        +:+ PyStr.str_nat (length lines - 150)
        +:+ " more lines — read full file if needed)"
    else content in
  ret ("### " +:+ path_str p +:+ PyStr.nl +:+ PyStr.nl +:+ content).

Fixpoint mapM {A B} (f : A -> M B) (l : list A) : M (list B) :=
  match l with
  | [] => ret []
  | a :: l' => b <- f a ;; bs <- mapM f l' ;; ret (b :: bs)
  end.

(** A [for] loop that threads one local variable. *)
Fixpoint foldM {A S} (f : S -> A -> M S) (l : list A) (s : S) : M S :=
  match l with
  | [] => ret s
  | a :: l' => s' <- f s a ;; foldM f l' s'
  end.

Definition load_docs (paths : list Path) : M string :=
  parts <- mapM load_one paths ;;
  ret (PyStr.join (PyStr.nl +:+ PyStr.nl +:+ "---" +:+ PyStr.nl +:+ PyStr.nl) parts).

(** *** Configuration read from the environment *)

Section Config.
Variable environ : gmap string string.

(** [os.environ.get(name, fallback)] *)
Definition getenv (name fallback : string) : string := default fallback (environ !! name).

Definition REPO : string := getenv "GITHUB_REPOSITORY" "".
Definition GH_TOKEN : string := getenv "GH_TOKEN" "".
Definition ANTHROPIC_API_KEY : string := getenv "ANTHROPIC_API_KEY" "".
Definition FORCE_REVIEW : bool :=
  bool_decide (PyStr.lower (getenv "FORCE_REVIEW" "false") = "true").
Definition REVIEW_LABELS : gset string :=
  list_to_set
    (map (fun l => PyStr.lower (PyStr.strip l))
       (filter (fun l => PyStr.strip l ≠ "")
          (PyStr.split ","%char (getenv "REVIEW_LABELS" "claude_review,review")))).

End Config.

(** *** Listing labelled items *)

(** [any(r["number"] == n for r in result)] *)
Definition listed (n : Z) (found : list Item) : bool :=
  existsb (fun r => bool_decide (number r = n)) found.

(** [pr_labels & REVIEW_LABELS] as a truth value *)
Definition carries_label (review_labels : gset string) (pr : Item) : bool :=
  let pr_labels : gset string := list_to_set (map PyStr.lower (labels pr)) in
  bool_decide (pr_labels ∩ review_labels ≠ ∅).

(** The [while True] loop of [list_labeled_prs] from page [page] on; one
    unit of fuel per page. *)
Fixpoint pulls_from (fuel : nat) (review_labels : gset string)
    (page : nat) (found : list Item) : M (list Item) :=
  match fuel with
  | O => raise OutOfFuel
  | S fuel' =>
      prs <- ask (fun w => open_pulls (github w) page) ;;
      match prs with
      | NonList | Items [] => ret found
      | Items prs =>
          let found' :=
            fold_left (fun acc pr =>
                         if carries_label review_labels pr && negb (listed (number pr) acc)
                         then acc ++ [pr] else acc) prs found in
          if Nat.ltb (length prs) 100 then ret found'
          else pulls_from fuel' review_labels (S page) found'
      end
  end.

(** The set is walked in the order of [elements]; Python leaves the order
    of a set of strings open. *)
Definition list_labeled_prs (fuel : nat) (review_labels : gset string) : M (list Item) :=
  foldM (fun found _ => pulls_from fuel review_labels 1 found) (elements review_labels) [].

Fixpoint issues_from (fuel : nat) (label : string)
    (page : nat) (found : list Item) : M (list Item) :=
  match fuel with
  | O => raise OutOfFuel
  | S fuel' =>
      items <- ask (fun w => open_issues (github w) label page) ;;
      match items with
      | NonList | Items [] => ret found
      | Items items =>
          let found' :=
            fold_left (fun acc item =>
                         if negb (is_pull_request item) && negb (listed (number item) acc)
                         then acc ++ [item] else acc) items found in
          if Nat.ltb (length items) 100 then ret found'
          else issues_from fuel' label (S page) found'
      end
  end.

Definition list_labeled_issues (fuel : nat) (review_labels : gset string) : M (list Item) :=
  foldM (fun found label => issues_from fuel label 1 found) (elements review_labels) [].

(** *** JSON values and [int] *)

(** What [json.loads] returns.  Of a number only its truth value is kept,
    of an object its items in insertion order. *)
#[warnings="-register-all"]
Inductive json :=
| JNull
| JBool (b : bool)
| JNumber (nonzero : bool)
| JString (s : string)
| JArray (l : list json)
| JObject (items : list (string * json)).

(** [if v:] *)
Definition truthy (v : json) : bool :=
  match v with
  | JNull => false
  | JBool b => b
  | JNumber nonzero => nonzero
  | JString s => negb (bool_decide (s = ""))
  | JArray l => match l with [] => false | _ :: _ => true end
  | JObject items => match items with [] => false | _ :: _ => true end
  end.

(** [for t in v]: the things the loop visits, or [TypeError]. *)
Definition iterate (v : json) : result (list json) :=
  match v with
  | JArray l => Ok l
  | JString s => Ok (map (fun c => JString (String c "")) (PyStr.chars s))
  | JObject items => Ok (map (fun kv => JString (fst kv)) items)
  | JNull | JBool _ | JNumber _ => Raise TypeError
  end.

Definition digit_value (c : ascii) : option Z :=
  if PyStr.is_digit c then Some (Z.of_nat (nat_of_ascii c) - 48) else None.

(** Digits with single underscores between them. *)
Fixpoint digits (acc : Z) (after_digit : bool) (l : list ascii) : option Z :=
  match l with
  | [] => if after_digit then Some acc else None
  | c :: l' =>
      if bool_decide (c = "_"%char) then
        if after_digit then digits acc false l' else None
      else match digit_value c with
           | Some d => digits (10 * acc + d) true l'
           | None => None
           end
  end.

(** The blanks [int] skips around an ASCII text: TAB..CR and the space
    (not FS..US, which [str.strip] takes off). *)
Definition is_int_space (c : ascii) : bool :=
  let n := nat_of_ascii c in
  (Nat.leb 9 n && Nat.leb n 13) || Nat.eqb n 32.

Fixpoint skip_int_space (l : list ascii) : list ascii :=
  match l with
  | c :: l' => if is_int_space c then skip_int_space l' else l
  | [] => []
  end.

Definition int_trim (l : list ascii) : list ascii :=
  rev (skip_int_space (rev (skip_int_space l))).

(** [sys.int_info.default_max_str_digits]: [int] refuses a text with more
    digits (CPython 3.11 on). *)
Definition MAX_STR_DIGITS : nat := 4300.

(** [int(s)] for a string: [None] stands for [ValueError].  Blanks around
    the text are skipped, one sign may lead, and the digits, leading zeros
    counted and underscores not, may not be more than [MAX_STR_DIGITS]. *)
Definition py_int (s : string) : option Z :=
  let l := int_trim (PyStr.chars s) in
  let '(negative, number) :=
    match l with
    | "-"%char :: l' => (true, l')
    | "+"%char :: l' => (false, l')
    | _ => (false, l)
    end in
  if Nat.ltb MAX_STR_DIGITS (length (List.filter PyStr.is_digit number)) then None
  else (if negative then Z.opp else id) <$> digits 0 false number.

Definition int (s : string) : M Z :=
  match py_int s with Some n => ret n | None => raise ValueError end.

(** *** Reviewing one item, and [main] *)

Section Orchestrator.

(** [json.loads]: [None] stands for [json.JSONDecodeError]. *)
Variable json_loads : string -> option json.

(** The two prompt templates ([build_pr_prompt], [build_issue_prompt]) lay
    out text for the generator; the orchestration uses them only to obtain
    that text. *)
Variable build_pr_prompt : Item -> string -> list string -> string -> string.
Variable build_issue_prompt : Item -> string -> string.

Definition call_claude (prompt : string) : M string :=
  ask (fun w => generator w prompt).

(** How an f-string shows a description: [None] for a JSON [null]. *)
Definition shown (d : option string) : string := default "None" d.

Definition with_marker (review : string) : string :=
  if PyStr.startswith review REVIEW_MARKER then review
  else REVIEW_MARKER +:+ PyStr.nl +:+ review.

Definition review_pr (pr_number : Z) : M unit :=
  print (ReviewingPR pr_number) ;;;
  pr <- get_pr pr_number ;;
  diff <- get_pr_diff pr_number ;;
  files <- get_pr_files pr_number ;;
  let search_text :=
    title pr +:+ " " +:+ shown (descr pr) +:+ " " +:+ PyStr.join " " files in
  doc_paths <- ask (fun w => Ok (select_docs (disk w) search_text)) ;;
  docs <- load_docs doc_paths ;;
  let prompt := build_pr_prompt pr diff files docs in
  review <- call_claude prompt ;;
  post_comment pr_number (with_marker review).

Definition review_issue (issue_number : Z) : M unit :=
  print (ReviewingIssue issue_number) ;;;
  item <- get_issue issue_number ;;
  let search_text := title item +:+ " " +:+ shown (descr item) in
  doc_paths <- ask (fun w => Ok (select_docs (disk w) search_text)) ;;
  docs <- load_docs doc_paths ;;
  let prompt := build_issue_prompt item docs in
  review <- call_claude prompt ;;
  post_comment issue_number (with_marker review).

(** One pull request of either loop of [main]; the result is the new value
    of [reviewed]. *)
Definition handle_pr (force : bool) (reviewed : nat) (n : Z) : M nat :=
  needed <- should_review_pr n force ;;
  if needed then review_pr n ;;; ret (S reviewed)
  else print (PRUpToDate n) ;;; ret reviewed.

Definition handle_issue (force : bool) (reviewed : nat) (n : Z) : M nat :=
  needed <- should_review_issue n force ;;
  if needed then review_issue n ;;; ret (S reviewed)
  else print (IssueAlreadyReviewed n) ;;; ret reviewed.

(** The body of [for t in targets]. *)
Definition handle_target (force : bool) (reviewed : nat) (t : json) : M nat :=
  match t with
  | JString t =>
      if PyStr.startswith t "pr:" then
        n <- int (PyStr.slice_from 3 t) ;; handle_pr force reviewed n
      else if PyStr.startswith t "issue:" then
        n <- int (PyStr.slice_from 6 t) ;; handle_issue force reviewed n
      else ret reviewed
  | _ => raise AttributeError
  end.

(** The [if targets:] branch. *)
Definition explicit_run (force : bool) (targets : json) : M nat :=
  ts <- ask (fun _ => iterate targets) ;;
  foldM (handle_target force) ts 0%nat.

(** The [else:] branch. *)
Definition scan_run (fuel : nat) (force : bool) (review_labels : gset string) : M nat :=
  print ScanMode ;;;
  prs <- list_labeled_prs fuel review_labels ;;
  reviewed <- foldM (fun reviewed pr => handle_pr force reviewed (number pr)) prs 0%nat ;;
  issues <- list_labeled_issues fuel review_labels ;;
  foldM (fun reviewed item => handle_issue force reviewed (number item)) issues reviewed.

(** The target list [main] works with: what [json.loads] gives, or the
    empty list when it raises. *)
Definition parse_targets (raw_targets : string) : json :=
  match json_loads raw_targets with
  | Some v => v
  | None => JArray []
  end.

Definition main (fuel : nat) (environ : gmap string string) : M unit :=
  if bool_decide (ANTHROPIC_API_KEY environ = "") then
    print (MissingConfig "ANTHROPIC_API_KEY") ;;; raise (SystemExit 1)
  else if bool_decide (GH_TOKEN environ = "") then
    print (MissingConfig "GH_TOKEN") ;;; raise (SystemExit 1)
  else if bool_decide (REPO environ = "") then
    print (MissingConfig "GITHUB_REPOSITORY") ;;; raise (SystemExit 1)
  else
    let mode := getenv environ "REVIEW_MODE" "scan" in
    let raw_targets := getenv environ "REVIEW_TARGETS" "[]" in
    let targets := parse_targets raw_targets in
    reviewed <- (if truthy targets
                 then explicit_run (FORCE_REVIEW environ) targets
                 else scan_run fuel (FORCE_REVIEW environ) (REVIEW_LABELS environ)) ;;
    print (Done reviewed).

End Orchestrator.

End Review.

(** ** The license gate of [scripts/dev/license_gate.py] *)

Module LicenseGate.

Definition ALLOWED_LICENSE_IDS : gset string :=
  list_to_set
    [ "MIT"; "Apache-2.0"; "BSD-1-Clause"; "BSD-2-Clause"; "BSD-3-Clause"; "ISC";
      "MPL-2.0"; "Zlib"; "BSL-1.0"; "CC0-1.0"; "MIT-0"; "NCSA"; "Unicode-3.0";
      "Unicode-DFS-2016"; "OFL-1.1"; "Ubuntu-font-1.0"; "CDLA-Permissive-2.0";
      "OpenSSL"; "Unlicense"; "0BSD" ].

Definition BANNED_ONLY_IDS : gset string :=
  list_to_set
    [ "GPL-2.0"; "GPL-2.0-only"; "GPL-2.0-or-later"; "GPL-3.0"; "GPL-3.0-only";
      "GPL-3.0-or-later"; "AGPL-3.0"; "AGPL-3.0-only"; "AGPL-3.0-or-later";
      "LGPL-2.1-only"; "LGPL-2.1-or-later"; "LGPL-3.0-only"; "LGPL-3.0-or-later" ].

(** The operator words [extract_tokens] leaves out. *)
Definition OPERATORS : gset string := list_to_set ["AND"; "OR"; "WITH"].

(** The character class of [TOKEN_RE], [[A-Za-z0-9.+-]]. *)
Definition is_token_char (c : ascii) : bool :=
  PyStr.is_alnum c || bool_decide (c = "."%char) || bool_decide (c = "+"%char)
  || bool_decide (c = "-"%char).

(** [TOKEN_RE.findall]: the maximal runs of token characters, left to
    right; [cur] is the run being read, reversed. *)
Fixpoint findall_chars (cur l : list ascii) : list (list ascii) :=
  match l with
  | [] => match cur with [] => [] | _ :: _ => [rev cur] end
  | c :: l' =>
      if is_token_char c then findall_chars (c :: cur) l'
      else match cur with
           | [] => findall_chars [] l'
           | _ :: _ => rev cur :: findall_chars [] l'
           end
  end.

Definition findall (s : string) : list string :=
  map PyStr.of_chars (findall_chars [] (PyStr.chars s)).

(** [license_expr or ""] *)
Definition or_empty (license_expr : option string) : string := default "" license_expr.

Definition extract_tokens (license_expr : option string) : gset string :=
  let tokens : gset string := list_to_set (findall (or_empty license_expr)) in
  filter (fun t => t ∉ OPERATORS) tokens.

(** How an f-string shows the expression. *)
Definition shown (license_expr : option string) : string := default "None" license_expr.

Definition is_acceptable_expression (license_expr : option string) : bool * string :=
  let tokens := extract_tokens license_expr in
  if bool_decide (tokens = ∅) then (false, "no SPDX tokens found") else
  let has_allowed := existsb (fun t => bool_decide (t ∈ ALLOWED_LICENSE_IDS)) (elements tokens) in
  let has_banned := existsb (fun t => bool_decide (t ∈ BANNED_ONLY_IDS)) (elements tokens) in
  if negb has_allowed then
    (false, "no allowed license option in expression (" +:+ shown license_expr +:+ ")")
  else if has_banned && negb (PyStr.contains "OR" (or_empty license_expr)) then
    (false, "banned copyleft-only expression (" +:+ shown license_expr +:+ ")")
  else (true, "ok").

(** One entry of the report of [cargo license --json]; a field is [None]
    when the key is absent or [null]. *)
Record Crate := {
  crate_name : option string;
  crate_version : option string;
  crate_license : option string;
}.

(** Crates allowed to come without a license expression, with the reason. *)
Definition ALLOWED_UNKNOWN : list (string * string) :=
  [ ("tokio-tungstenite-wasm",
     "temporary allowlist: upstream crate metadata omits license expression") ].

(** [name in ALLOWED_UNKNOWN] *)
Definition allowlisted (name : string) : bool :=
  bool_decide (name ∈ ALLOWED_UNKNOWN.*1).

(** The two lists [main] fills. *)
Record Findings := {
  violations : list (string * string * string * string);
  unknowns : list (string * string * string);
}.

(** [(crate.get("license") or "").strip()] *)
Definition license_of (crate : Crate) : string := PyStr.strip (or_empty (crate_license crate)).

(** The body of [for crate in data]. *)
Definition check_crate (found : Findings) (crate : Crate) : Findings :=
  let name := default "<unknown>" (crate_name crate) in
  let version := default "<unknown>" (crate_version crate) in
  let license_expr := license_of crate in
  if bool_decide (license_expr = "") then
    if allowlisted name then found
    else {| violations := violations found;
            unknowns := unknowns found ++ [(name, version, "missing license expression")] |}
  else
    let '(ok, reason) := is_acceptable_expression (Some license_expr) in
    if ok then found
    else {| violations := violations found ++ [(name, version, license_expr, reason)];
            unknowns := unknowns found |}.

Definition check_all (data : list Crate) : Findings :=
  fold_left check_crate data {| violations := []; unknowns := [] |}.

(** [main] from the parsed report on: the return code and the printed
    lines.  Running [cargo license] and reading its output are left to the
    caller. *)
Definition main (data : list Crate) : Z * list string :=
  let found := check_all data in
  match violations found, unknowns found with
  | [], [] =>
      (0, ["License gate passed: all crates have acceptable license options and unknowns are allowlisted."])
  | vs, us =>
      (1,
       ["License gate failed."]
       ++ match vs with
          | [] => []
          | _ :: _ =>
              (PyStr.nl +:+ "Disallowed license findings:")
              :: map (fun '(name, version, expr, reason) =>
                        "- " +:+ name +:+ " " +:+ version +:+ ": " +:+ expr
                          +:+ " (" +:+ reason +:+ ")") vs
          end
       ++ match us with
          | [] => []
          | _ :: _ =>
              (PyStr.nl +:+ "Unknown/unlicensed findings (not allowlisted):")
              :: map (fun '(name, version, reason) =>
                        "- " +:+ name +:+ " " +:+ version +:+ ": " +:+ reason) us
          end
       ++ match ALLOWED_UNKNOWN with
          | [] => []
          | _ :: _ =>
              (PyStr.nl +:+ "Current allowlisted unknowns:")
              :: map (fun '(name, why) => "- " +:+ name +:+ ": " +:+ why) ALLOWED_UNKNOWN
          end)
  end.

End LicenseGate.

(** ** Sample data for the examples *)

Module Fixtures.
Import Docs Review.

(** A checkout that holds the registry plan and nothing else. *)
Definition only_registry_plan : Disk :=
  fun p => if bool_decide (p = strategy "2026-02-22_registry_layer_plan.md")
           then Some (TextFile "# Registry layer plan") else None.

(** An automated review, and a comment by a person, last updated at [t]. *)
Definition review_at (t : instant) : Comment :=
  {| body := Some (REVIEW_MARKER +:+ " Matches the plan."); updated_at := Some t |}.
Definition remark_at (t : instant) : Comment :=
  {| body := Some "Rebased on main."; updated_at := Some t |}.

(** The timestamps of the marked comments of a page, in page order. *)
Definition review_stamps (comments : list Comment) : list instant :=
  omap updated_at (List.filter has_marker comments).

Definition commit_at (t : instant) : Commit :=
  {| committer_date := Some t; author_date := Some t |}.

Definition lasso_pr : Item :=
  {| number := 7; title := "Add lasso select"; descr := Some "Multi-view selection";
     labels := ["review"]; is_pull_request := true |}.

Definition lens_issue : Item :=
  {| number := 12; title := "Lens registry is slow"; descr := None;
     labels := ["claude_review"]; is_pull_request := false |}.

(** A repository with one open pull request, number 7, and one open issue,
    number 12. *)
Definition repo (files : list string) (pr_comments issue_comments_ : list Comment)
    (commits : list Commit) : GitHub :=
  {| pull := fun n => if bool_decide (n = 7) then Ok lasso_pr else Raise HTTPError;
     issue := fun n => if bool_decide (n = 12) then Ok lens_issue else Raise HTTPError;
     pull_diff := fun n => Ok (if bool_decide (n = 7) then Some "+fn lasso() {}" else None);
     pull_files := fun n =>
       if bool_decide (n = 7) then Ok (Items files) else Raise HTTPError;
     issue_comments := fun n =>
       if bool_decide (n = 7) then Ok (Items pr_comments)
       else if bool_decide (n = 12) then Ok (Items issue_comments_)
       else Raise HTTPError;
     pull_commits := fun n =>
       if bool_decide (n = 7) then Ok (Items commits) else Raise HTTPError;
     open_pulls := fun page =>
       Ok (Items (if bool_decide (page = 1%nat) then [lasso_pr] else []));
     open_issues := fun label page =>
       Ok (Items (if bool_decide (label = "claude_review") && bool_decide (page = 1%nat)
                  then [lens_issue] else []));
     accepts_comment := fun _ => true;
     now := 1000 |}.

Definition world (gh : GitHub) : World :=
  {| github := gh; generator := fun _ => Ok "Looks fine.";
     disk := fun _ => None; posted := []; output := [] |}.

Definition credentials : gmap string string :=
  {[ "ANTHROPIC_API_KEY" := "key"; "GH_TOKEN" := "token";
     "GITHUB_REPOSITORY" := "mark-ik/graphshell" ]}.

(** [json.loads] on the two texts the examples hand to it: the empty array,
    and anything else they use, which is not JSON. *)
Definition loads_empty_array_only (s : string) : option json :=
  if bool_decide (s = "[]") then Some (JArray []) else None.

(** The same repository with a commits endpoint that fails. *)
Definition commits_down (gh : GitHub) : GitHub :=
  {| pull := pull gh; issue := issue gh; pull_diff := pull_diff gh;
     pull_files := pull_files gh; issue_comments := issue_comments gh;
     pull_commits := fun _ => Raise HTTPError;
     open_pulls := open_pulls gh; open_issues := open_issues gh;
     accepts_comment := accepts_comment gh; now := now gh |}.

(** A text of [n] lines. *)
Definition text_of_lines (n : nat) : string := PyStr.join PyStr.nl (replicate n "line").

(** A checkout where every path holds a document of 400 lines. *)
Definition long_documents : Disk := fun _ => Some (TextFile (text_of_lines 400)).

(** A text between double quotes, as JSON writes a string. *)
Definition quoted (s : string) : string :=
  String (ascii_of_nat 34) "" +:+ s +:+ String (ascii_of_nat 34) "".

(** [json.loads] on the texts the examples hand to it: the empty array, an
    array of one string, a bare string; anything else they use is not
    JSON. *)
Definition loads_sample (s : string) : option json :=
  if bool_decide (s = "[]") then Some (JArray [])
  else if bool_decide (s = "[" +:+ quoted "wiki:3" +:+ "]") then Some (JArray [JString "wiki:3"])
  else if bool_decide (s = quoted "pr:7") then Some (JString "pr:7")
  else None.

Definition plain_pr_prompt (pr : Item) (diff : string) (files : list string)
    (docs : string) : string :=
  title pr +:+ PyStr.nl +:+ diff +:+ PyStr.nl +:+ docs.
Definition plain_issue_prompt (item : Item) (docs : string) : string :=
  title item +:+ PyStr.nl +:+ docs.

End Fixtures.

(** ** Predicates used to state properties *)

Module Spec.
Import Docs Review LicenseGate.

(** The rule fires on the lower-cased text and its document is there. *)
Definition rule_selected (disk : Disk) (text_lower : string)
    (rule : list string * Path) : bool :=
  existsb (keyword_hits text_lower) (fst rule) && exists_ disk (snd rule).

(** The character is no line boundary of [splitlines]. *)
Definition no_break (l : list ascii) : Prop :=
  Forall (fun c => PyStr.is_linebreak c = false) l.

(** The text begins with the review marker. *)
Definition marked (text : string) : Prop :=
  PyStr.startswith text REVIEW_MARKER = true.

(** The target names neither a pull request nor an issue. *)
Definition unaddressed (t : json) : Prop :=
  exists s, t = JString s
            /\ PyStr.startswith s "pr:" = false
            /\ PyStr.startswith s "issue:" = false.

(** The comment the server stores for a posted text. *)
Definition stamped (gh : GitHub) (text : string) : Comment :=
  {| body := Some text; updated_at := Some (now gh) |}.

(** The repository after the server has stored the posted comments [new],
    oldest first. *)
Definition replay (gh : GitHub) (new : list (Z * string)) : GitHub :=
  fold_left (fun gh nt => add_comment gh (fst nt) (stamped gh (snd nt))) new gh.

(** From [w] to [w']: the comments [new] were posted and the lines [out]
    printed, and nothing else changed. *)
Record effect (w w' : World) (new : list (Z * string)) (out : list event) : Prop := {
  effect_github : github w' = replay (github w) new;
  effect_generator : generator w' = generator w;
  effect_disk : disk w' = disk w;
  effect_posted : posted w' = posted w ++ new;
  effect_output : output w' = output w ++ out;
}.

(** The computation only reads the world. *)
Definition reads {A} (c : M A) : Prop := forall w r w', c w = (r, w') -> w' = w.

(** What a run that started with the counter at [k] has done: it posted
    marked comments only, and on success the counter went up by their
    number. *)
Definition tally (k : nat) (w : World) (r : result nat) (w' : World) : Prop :=
  exists new out,
    effect w w' new out
    /\ Forall (fun nt => marked (snd nt)) new
    /\ match r with Ok k' => k' = (k + length new)%nat | Raise _ => True end.

(** What [list_labeled_prs] may hold: open pull requests of some page
    that carry a review label, no number twice. *)
Definition labelled_pulls (gh : GitHub) (labels : gset string) (found : list Item) : Prop :=
  Forall (fun pr => carries_label labels pr = true
                    /\ exists page prs, open_pulls gh page = Ok (Items prs) /\ pr ∈ prs) found
  /\ NoDup (number <$> found).

(** What [list_labeled_issues] may hold: items of some page asked for
    under a review label that are not pull requests, no number twice. *)
Definition labelled_issues (gh : GitHub) (labels : gset string) (found : list Item) : Prop :=
  Forall (fun item => is_pull_request item = false
                      /\ exists label page items,
                           label ∈ labels
                           /\ open_issues gh label page = Ok (Items items) /\ item ∈ items) found
  /\ NoDup (number <$> found).

(** What the license gate asks of one crate. *)
Definition crate_passes (crate : Crate) : bool :=
  if bool_decide (license_of crate = "")
  then allowlisted (default "<unknown>" (crate_name crate))
  else fst (is_acceptable_expression (Some (license_of crate))).

End Spec.

(** * Properties *)

(** ** Strings *)

Section StringFacts.
Import PyStr.

Lemma chars_of_chars l : chars (of_chars l) = l.
Proof. apply String.list_ascii_of_string_of_list_ascii. Qed.

Lemma of_chars_chars s : of_chars (chars s) = s.
Proof. apply String.string_of_list_ascii_of_string. Qed.

Lemma chars_append s1 s2 : chars (s1 +:+ s2) = chars s1 ++ chars s2.
Proof. induction s1 as [|a s1 IH]; simpl; [done | by rewrite <- IH]. Qed.

Lemma of_chars_app l1 l2 : of_chars (l1 ++ l2) = of_chars l1 +:+ of_chars l2.
Proof. induction l1 as [|a l1 IH]; simpl; [done | by rewrite IH]. Qed.

Lemma starts_spec l t : starts l t = true <-> exists post, t = l ++ post.
Proof.
  revert t; induction l as [|a l IH]; intros t; simpl.
  - split; [eauto | done].
  - destruct t as [|b t]; [split; [done | by intros [? ?]] |].
    rewrite andb_true_iff, bool_decide_eq_true, IH. split.
    + intros [-> [post ->]]; eauto.
    + intros [post [= -> ->]]; eauto.
Qed.

Lemma occurs_spec l t :
  occurs l t = true <-> exists pre post, t = pre ++ l ++ post.
Proof.
  induction t as [|b t IH]; simpl; rewrite orb_true_iff, starts_spec.
  - split.
    + intros [[post ->] | ?]; [by exists [], post | done].
    + intros (pre & post & H). left. symmetry in H.
      apply app_eq_nil in H as [-> H]. eauto.
  - rewrite IH. split.
    + intros [[post ->] | (pre & post & ->)]; [by exists [], post |].
      by exists (b :: pre), post.
    + intros (pre & post & H). destruct pre as [|a pre]; simpl in H.
      * left; eauto.
      * right. injection H as -> ->. eauto.
Qed.

(** [needle in hay] holds exactly when [needle] is a substring of [hay]. *)
Lemma contains_spec needle hay :
  contains needle hay = true <->
  exists pre post, hay = pre +:+ needle +:+ post.
Proof.
  unfold contains. rewrite occurs_spec. split.
  - intros (pre & post & H). exists (of_chars pre), (of_chars post).
    by rewrite <- (of_chars_chars hay), H, !of_chars_app, of_chars_chars.
  - intros (pre & post & ->). exists (chars pre), (chars post).
    by rewrite !chars_append.
Qed.

Lemma lower_char_idempotent c : lower_char (lower_char c) = lower_char c.
Proof. by destruct c as [[] [] [] [] [] [] [] []]. Qed.

(** Lower-casing a text that is already lower-cased changes nothing. *)
Lemma lower_idempotent s : lower (lower s) = lower s.
Proof.
  unfold lower. rewrite chars_of_chars, map_map. f_equal.
  apply map_ext. intros c. apply lower_char_idempotent.
Qed.

End StringFacts.

(** ** Keyword patterns: the matcher finds exactly the denoted words *)

Section RegexFacts.
Import Regex.

Lemma match_here_star p t :
  match_here (NonWordStar :: p) t =
  match_here p t ||
  match t with
  | c :: t' => negb (is_word c) && match_here (NonWordStar :: p) t'
  | [] => false
  end.
Proof. by destruct t. Qed.

Lemma match_here_lit c p c' t :
  match_here (Lit c :: p) (c' :: t) = bool_decide (c = c') && match_here p t.
Proof. done. Qed.

Lemma match_here_complete p w :
  denotes p w -> forall rest, match_here p (w ++ rest) = true.
Proof.
  induction 1 as [|c p w _ IH|p sep w Hsep _ IH]; intros rest.
  - done.
  - change ((c :: w) ++ rest) with (c :: (w ++ rest)).
    by rewrite match_here_lit, bool_decide_eq_true_2, IH.
  - rewrite <- app_assoc.
    induction Hsep as [|c sep Hc _ IHsep]; rewrite match_here_star.
    + change ([] ++ w ++ rest) with (w ++ rest). by rewrite IH.
    + change ((c :: sep) ++ w ++ rest) with (c :: (sep ++ w ++ rest)).
      cbv beta iota. rewrite Hc, IHsep. apply orb_true_r.
Qed.

Lemma match_here_sound p :
  forall t, match_here p t = true -> exists w rest, t = w ++ rest /\ denotes p w.
Proof.
  induction p as [|[c|] p IH]; intros t.
  - intros _. exists [], t. split; [done | constructor].
  - destruct t as [|c' t]; [done |].
    rewrite match_here_lit, andb_true_iff, bool_decide_eq_true. intros [<- H].
    destruct (IH _ H) as (w & rest & -> & Hw).
    exists (c :: w), rest. split; [done | by constructor].
  - induction t as [|c t IHt]; rewrite match_here_star, orb_true_iff.
    + intros [H | H]; [| done].
      destruct (IH _ H) as (w & rest & Ht & Hw).
      exists w, rest. split; [done |]. by apply (denotes_star p []).
    + rewrite andb_true_iff, negb_true_iff. intros [H | [Hc H]].
      * destruct (IH _ H) as (w & rest & Ht & Hw).
        exists w, rest. split; [done |]. by apply (denotes_star p []).
      * destruct (IHt H) as (w & rest & -> & Hw).
        inversion Hw as [| |p0 sep w0 Hsep Hw0]; subst.
        exists ((c :: sep) ++ w0), rest. split; [done |].
        apply denotes_star; [by constructor | done].
Qed.

Lemma match_here_spec p t :
  match_here p t = true <-> exists w rest, t = w ++ rest /\ denotes p w.
Proof.
  split; [apply match_here_sound |].
  intros (w & rest & -> & Hw). by apply match_here_complete.
Qed.

(** [re.search] succeeds exactly when some substring of the text is a
    word of the pattern. *)
Lemma search_spec p t :
  search p t = true <-> exists pre w post, t = pre ++ w ++ post /\ denotes p w.
Proof.
  induction t as [|c t IH]; simpl; rewrite orb_true_iff, match_here_spec.
  - split.
    + intros [(w & rest & Ht & Hw) | ?]; [| done]. by exists [], w, rest.
    + intros (pre & w & post & Ht & Hw). left. symmetry in Ht.
      apply app_eq_nil in Ht as [-> Ht]. eauto.
  - rewrite IH. split.
    + intros [(w & rest & Ht & Hw) | (pre & w & post & -> & Hw)].
      * by exists [], w, rest.
      * by exists (c :: pre), w, post.
    + intros (pre & w & post & Ht & Hw). destruct pre as [|a pre]; simpl in Ht.
      * left; eauto.
      * right. injection Ht as -> ->. eauto.
Qed.

(** The words of the pattern written [multi.view]: [multi], then any run
    of non-word characters, the empty one too, then [view]. *)
Lemma denotes_multi_view w :
  denotes (compile "multi.view") w <->
  exists sep, w = PyStr.chars "multi" ++ sep ++ PyStr.chars "view"
              /\ Forall (fun c => is_word c = false) sep.
Proof.
  split.
  - intros H. cbv in H.
    repeat match goal with
           | H : denotes (_ :: _) _ |- _ => inversion H; clear H; subst
           | H : denotes [] _ |- _ => inversion H; clear H; subst
           end.
    eexists; split; [reflexivity | done].
  - intros (sep & -> & Hsep). cbn.
    do 5 constructor. apply denotes_star; [done |].
    do 4 constructor. constructor.
Qed.

End RegexFacts.

(** ** The context selector *)

Section SelectorFacts.
Import Docs.

Lemma always_include_nodup : NoDup ALWAYS_INCLUDE_DOCS.
Proof.
  apply (bool_decide_eq_true_1 _ (Decision0 := NoDup_dec _)). by vm_compute.
Qed.

Lemma keyword_docs_not_always :
  Forall (fun rule => (snd rule) ∉ ALWAYS_INCLUDE_DOCS) KEYWORD_DOC_MAP.
Proof.
  apply (bool_decide_eq_true_1 _ (Decision0 := Forall_dec _ _)). by vm_compute.
Qed.

(** Every keyword of the table lies in the fragment [Regex.compile]
    covers. *)
Lemma keywords_are_plain :
  Forall (fun rule => forallb Regex.plain_keyword (fst rule) = true) KEYWORD_DOC_MAP.
Proof.
  apply (bool_decide_eq_true_1 _ (Decision0 := Forall_dec _ _)). by vm_compute.
Qed.

(** One rule leaves the selection alone or appends its document, and it
    appends only a document that exists and is not selected yet. *)
Lemma select_step_cases disk text_lower selected rule :
  select_step disk text_lower selected rule = selected \/
  (select_step disk text_lower selected rule = selected ++ [snd rule]
   /\ (snd rule ∉ selected) /\ exists_ disk (snd rule) = true
   /\ existsb (keyword_hits text_lower) (fst rule) = true).
Proof.
  destruct rule as [keywords doc_path]; simpl.
  destruct (existsb _ keywords); [| by left].
  destruct (bool_decide_reflect (doc_path ∈ selected)); simpl; [by left |].
  destruct (exists_ disk doc_path); [by right | by left].
Qed.

(** The loop of [select_docs] over any rule table, from any selection. *)
Lemma select_loop_inv disk text_lower rules :
  forall selected,
  exists rest,
    fold_left (select_step disk text_lower) rules selected = selected ++ rest
    /\ NoDup rest
    /\ forall p, p ∈ rest ->
         (p ∉ selected) /\ exists_ disk p = true /\ p ∈ (snd <$> rules).
Proof.
  induction rules as [|rule rules IH]; intros selected; simpl.
  - exists []. rewrite app_nil_r. split_and!; [done | constructor |].
    intros p Hp. by apply elem_of_nil in Hp.
  - destruct (select_step_cases disk text_lower selected rule)
      as [-> | (-> & Hnew & Hex & _)].
    + destruct (IH selected) as (rest & -> & Hnd & Hrest).
      exists rest. split_and!; [done..|].
      intros p Hp. destruct (Hrest p Hp) as (? & ? & ?).
      split_and!; [done..|]. by right.
    + destruct (IH (selected ++ [snd rule])) as (rest & -> & Hnd & Hrest).
      exists ((snd rule) :: rest). split_and!.
      * by rewrite <- app_assoc.
      * constructor; [| done]. intros Hin.
        destruct (Hrest _ Hin) as (Hn & _). apply Hn, elem_of_app. right. by left.
      * intros p [-> | Hp]%elem_of_cons.
        -- split_and!; [done..|]. by left.
        -- destruct (Hrest p Hp) as (Hn & ? & ?).
           split_and!; [| done |]; [| by right].
           intros Hs. apply Hn, elem_of_app. by left.
Qed.

Lemma select_docs_shape disk text :
  exists rest,
    select_docs disk text = ALWAYS_INCLUDE_DOCS ++ rest
    /\ NoDup (select_docs disk text)
    /\ forall p, p ∈ rest ->
         (p ∉ ALWAYS_INCLUDE_DOCS) /\ exists_ disk p = true /\ p ∈ (snd <$> KEYWORD_DOC_MAP).
Proof.
  unfold select_docs.
  destruct (select_loop_inv disk (PyStr.lower text) KEYWORD_DOC_MAP ALWAYS_INCLUDE_DOCS)
    as (rest & -> & Hnd & Hrest).
  exists rest. split_and!; [done | | done].
  apply NoDup_app. split_and!; [apply always_include_nodup | | done].
  intros p Hp Hin. by destruct (Hrest p Hin).
Qed.

(** The text of the placeholder names its cause. *)
Lemma placeholder_says_not_found p :
  PyStr.contains "not found" ("(file not found: " +:+ path_str p +:+ ")") = true.
Proof.
  apply contains_spec. by exists "(file ", (": " +:+ path_str p +:+ ")").
Qed.

End SelectorFacts.

(** ** Claims about the context selector *)

Section SelectorClaims.
Import Docs Fixtures.

(** C2 as the claim states it fails on two of its four texts: the
    wildcard also takes the empty run, and the underscore is a word
    character. *)
Lemma multi_view_separator_counterexample :
  keyword_hits (PyStr.lower "multiview") "multi.view" = true
  /\ keyword_hits (PyStr.lower "multi_view") "multi.view" = false.
Proof. split; reflexivity. Qed.

(** C2 (amended): for every keyword and text, the match is made against
    the lower-cased text and succeeds exactly when some substring of it is
    a word of the pattern, where the wildcard stands for any run, the empty
    one included, of non-word characters (everything but letters, digits
    and the underscore); the selection for a text is the selection for its
    lower-cased form.  For [multi.view]: texts containing "multi-view",
    "multi  view" or "multiview" match in any letter case, and "multi_view"
    does not. *)
Theorem wildcard_is_any_run_of_non_word_characters :
  (forall kw text,
     keyword_hits (PyStr.lower text) kw = true <->
     exists pre w post,
       PyStr.chars (PyStr.lower text) = pre ++ w ++ post
       /\ Regex.denotes (Regex.compile kw) w)
  /\ (forall text,
        keyword_hits (PyStr.lower text) "multi.view" = true <->
        exists pre sep post,
          PyStr.chars (PyStr.lower text)
            = pre ++ (PyStr.chars "multi" ++ sep ++ PyStr.chars "view") ++ post
          /\ Forall (fun c => Regex.is_word c = false) sep)
  /\ (forall disk text, select_docs disk (PyStr.lower text) = select_docs disk text)
  /\ keyword_hits (PyStr.lower "Adds Multi-View panes") "multi.view" = true
  /\ keyword_hits (PyStr.lower "adds multi  view panes") "multi.view" = true
  /\ keyword_hits (PyStr.lower "adds MULTIVIEW panes") "multi.view" = true
  /\ keyword_hits (PyStr.lower "adds multi_view panes") "multi.view" = false.
Proof.
  split_and!; try reflexivity.
  3: { intros disk text. unfold select_docs. by rewrite lower_idempotent. }
  - intros kw text. apply search_spec.
  - intros text. unfold keyword_hits. rewrite search_spec. split.
    + intros (pre & w & post & Ht & (sep & -> & Hsep)%denotes_multi_view).
      by exists pre, sep, post.
    + intros (pre & sep & post & Ht & Hsep).
      exists pre, (PyStr.chars "multi" ++ sep ++ PyStr.chars "view"), post.
      split; [done |]. apply denotes_multi_view. by exists sep.
Qed.

(** C6: on the empty text the selector returns the always-include list as
    declared, which has no duplicates, whatever the checkout holds; on every
    text it returns a list (it is a total function) that starts with the
    always-include list and has no duplicates. *)
Theorem select_docs_empty_text_is_always_include :
  (forall disk, select_docs disk "" = ALWAYS_INCLUDE_DOCS)
  /\ NoDup ALWAYS_INCLUDE_DOCS
  /\ (forall disk text,
        exists rest, select_docs disk text = ALWAYS_INCLUDE_DOCS ++ rest
                     /\ NoDup (select_docs disk text)).
Proof.
  split_and!.
  - intros disk. reflexivity.
  - apply always_include_nodup.
  - intros disk text.
    destruct (select_docs_shape disk text) as (rest & H & Hnd & _). eauto.
Qed.

(** C8: a path with nothing on disk is in the selection exactly when it is
    an always-include document, so a keyword document that is missing is
    left out; no keyword rule names an always-include document; the
    always-include list heads every selection; and [read_doc] returns for
    the missing path a placeholder that reads "not found" and does not
    raise. *)
Theorem missing_document_dropped_or_placeholder disk text p :
  disk p = None ->
  (p ∈ select_docs disk text <-> p ∈ ALWAYS_INCLUDE_DOCS)
  /\ Forall (fun rule => snd rule ∉ ALWAYS_INCLUDE_DOCS) KEYWORD_DOC_MAP
  /\ (exists rest, select_docs disk text = ALWAYS_INCLUDE_DOCS ++ rest)
  /\ read_doc disk p = Some ("(file not found: " +:+ path_str p +:+ ")")
  /\ PyStr.contains "not found" ("(file not found: " +:+ path_str p +:+ ")") = true.
Proof.
  intros Hmissing.
  destruct (select_docs_shape disk text) as (rest & Hsel & _ & Hrest).
  split_and!.
  - rewrite Hsel, elem_of_app. split; [| by left].
    intros [? | Hin]; [done |].
    destruct (Hrest p Hin) as (_ & Hex & _).
    unfold exists_ in Hex. by rewrite Hmissing in Hex.
  - apply keyword_docs_not_always.
  - by exists rest.
  - unfold read_doc. by rewrite Hmissing.
  - apply placeholder_says_not_found.
Qed.

Lemma missing_document_witness :
  only_registry_plan (strategy "2026-02-24_physics_engine_extensibility_plan.md") = None
  /\ select_docs only_registry_plan "Physics reheat and the lens registry"
     = ALWAYS_INCLUDE_DOCS ++ [strategy "2026-02-22_registry_layer_plan.md"]
  /\ (strategy "2026-02-24_physics_engine_extensibility_plan.md"
        ∈ select_docs only_registry_plan "Physics reheat and the lens registry"
      <-> strategy "2026-02-24_physics_engine_extensibility_plan.md" ∈ ALWAYS_INCLUDE_DOCS).
Proof.
  split_and!; [reflexivity | reflexivity |].
  apply (missing_document_dropped_or_placeholder only_registry_plan
           "Physics reheat and the lens registry"
           (strategy "2026-02-24_physics_engine_extensibility_plan.md")).
  reflexivity.
Defined.

End SelectorClaims.

(** ** The staleness oracle *)

Section OracleFacts.
Import Review.

(** Walking the page backwards finds the marked comment nearest its end. *)
Lemma last_review_position comments :
  match get_last_claude_review comments with
  | Some c =>
      exists before after,
        comments = before ++ c :: after
        /\ has_marker c = true
        /\ Forall (fun c' => has_marker c' = false) after
  | None => Forall (fun c' => has_marker c' = false) comments
  end.
Proof.
  unfold get_last_claude_review.
  induction comments as [|c comments IH] using rev_ind; [by constructor |].
  rewrite rev_unit. simpl. destruct (has_marker c) eqn:Hc.
  - exists comments, []. split_and!; [done | done | constructor].
  - destruct (find has_marker (rev comments)) as [c0|].
    + destruct IH as (before & after & -> & Hc0 & Hafter).
      exists before, (after ++ [c]). split_and!; [| done |].
      * by rewrite <- app_assoc.
      * apply Forall_app. split; [done |]. by repeat constructor.
    + apply Forall_app. split; [done |]. by repeat constructor.
Qed.

Lemma no_review_iff_unmarked comments :
  get_last_claude_review comments = None <->
  forall c, c ∈ comments -> has_marker c = false.
Proof.
  pose proof (last_review_position comments) as H.
  destruct (get_last_claude_review comments) as [c|].
  - destruct H as (before & after & -> & Hc & _). split; [done |].
    intros Hall. rewrite Hall in Hc; [done |].
    apply elem_of_app. right. by left.
  - split; [| done]. intros _. by apply Forall_forall.
Qed.

Lemma fold_max_bounds rest :
  forall t, t <= fold_left Z.max rest t
            /\ Forall (fun x => x <= fold_left Z.max rest t) rest
            /\ fold_left Z.max rest t ∈ t :: rest.
Proof.
  induction rest as [|x rest IH]; intros t; simpl.
  - split_and!; [lia | constructor | by left].
  - destruct (IH (Z.max t x)) as (Hge & Hall & Hin). split_and!.
    + lia.
    + constructor; [lia | done].
    + apply elem_of_cons in Hin as [Heq | Hin].
      * rewrite Heq. destruct (Z.max_spec t x) as [[_ ->] | [_ ->]].
        -- right. by left.
        -- by left.
      * right. by right.
Qed.

(** [latest] is the maximum of a non-empty list, and nothing for the empty
    one. *)
Lemma latest_spec times :
  match latest times with
  | Some m => m ∈ times /\ forall t, t ∈ times -> t <= m
  | None => times = []
  end.
Proof.
  destruct times as [|t rest]; simpl; [done |].
  destruct (fold_max_bounds rest t) as (Hge & Hall & Hin).
  split; [done |]. intros x [-> | Hx]%elem_of_cons; [done |].
  by apply (proj1 (Forall_forall _ _) Hall).
Qed.

Lemma latest_exceeds times T :
  (exists m, latest times = Some m /\ T < m) <-> (exists t, t ∈ times /\ T < t).
Proof.
  pose proof (latest_spec times) as H.
  destruct (latest times) as [m|].
  - destruct H as [Hin Hmax]. split.
    + intros (m' & [= <-] & Hlt). eauto.
    + intros (t & Ht & Hlt). exists m. split; [done |].
      specialize (Hmax t Ht). lia.
  - subst times. split.
    + by intros (m & ? & _).
    + intros (t & Ht & _). by apply elem_of_nil in Ht.
Qed.

Lemma get_pr_latest_commit_time_eq n w r :
  pull_commits (github w) n = Ok r ->
  get_pr_latest_commit_time n w = (Ok (latest (omap commit_date (as_list r))), w).
Proof.
  intros Hr. unfold get_pr_latest_commit_time, bind, ask. rewrite Hr.
  by destruct r as [|[|c cs]].
Qed.

Lemma get_pr_files_eq n w p :
  pull_files (github w) n = Ok p -> get_pr_files n w = (Ok (as_list p), w).
Proof. intros Hp. unfold get_pr_files, bind, ask. by rewrite Hp. Qed.

Lemma get_issue_comments_eq n w q :
  issue_comments (github w) n = Ok q -> get_issue_comments n w = (Ok (as_list q), w).
Proof. intros Hq. unfold get_issue_comments, bind, ask. by rewrite Hq. Qed.

(** [should_review_pr] without the force flag, once the files and the
    comments are fetched: the answer hangs on the comments only through
    [get_last_claude_review]. *)
Lemma should_review_pr_reviewed n w p q r c T :
  pull_files (github w) n = Ok p -> as_list p <> [] ->
  issue_comments (github w) n = Ok q ->
  get_last_claude_review (as_list q) = Some c ->
  updated_at c = Some T ->
  pull_commits (github w) n = Ok r ->
  should_review_pr n false w =
  (Ok (match latest (omap commit_date (as_list r)) with
       | Some t => T <? t
       | None => false
       end), w).
Proof.
  intros Hp Hne Hq Hc HT Hr. unfold should_review_pr, bind.
  rewrite (get_pr_files_eq _ _ _ Hp).
  destruct (as_list p) as [|f fs]; [done |].
  unfold get_pr_comments. rewrite (get_issue_comments_eq _ _ _ Hq), Hc, HT.
  unfold ret at 1. rewrite (get_pr_latest_commit_time_eq _ _ _ Hr).
  by destruct (latest _).
Qed.

Lemma should_review_pr_never_reviewed n w p q :
  pull_files (github w) n = Ok p -> as_list p <> [] ->
  issue_comments (github w) n = Ok q ->
  get_last_claude_review (as_list q) = None ->
  should_review_pr n false w = (Ok true, w).
Proof.
  intros Hp Hne Hq Hc. unfold should_review_pr, bind.
  rewrite (get_pr_files_eq _ _ _ Hp).
  destruct (as_list p) as [|f fs]; [done |].
  unfold get_pr_comments. by rewrite (get_issue_comments_eq _ _ _ Hq), Hc.
Qed.

(** The converse of [last_review_position]: a marked comment that no
    marked comment follows in the page is the one the backward walk
    returns, whatever stands before it. *)
Lemma last_review_of_split before c after :
  has_marker c = true ->
  Forall (fun c' => has_marker c' = false) after ->
  get_last_claude_review (before ++ c :: after) = Some c.
Proof.
  intros Hc Hafter. unfold get_last_claude_review.
  rewrite rev_app_distr. simpl. rewrite <- app_assoc. simpl.
  apply Forall_rev in Hafter.
  induction Hafter as [|x l Hx _ IH]; simpl; [by rewrite Hc |].
  by rewrite Hx.
Qed.

(** In a page whose marked comments come in non-decreasing order of
    [updated_at], the marked comment that stands last carries the greatest
    of their dates. *)
Lemma last_marked_stamp_is_greatest before c after T :
  has_marker c = true ->
  Forall (fun c' => has_marker c' = false) after ->
  updated_at c = Some T ->
  StronglySorted Z.le (Fixtures.review_stamps (before ++ c :: after)) ->
  forall t', t' ∈ Fixtures.review_stamps (before ++ c :: after) -> t' <= T.
Proof.
  intros Hm Hafter HT. unfold Fixtures.review_stamps.
  rewrite List.filter_app. simpl. rewrite Hm.
  assert (List.filter has_marker after = []) as ->.
  { clear -Hafter. induction Hafter as [|x l Hx _ IH]; simpl; [done |].
    by rewrite Hx. }
  rewrite omap_app. simpl. rewrite HT.
  intros Hsorted t' [Hin | Hin]%elem_of_app.
  - apply (StronglySorted_app_1_elem_of _ _ _ _ _ Hsorted Hin). by left.
  - apply list_elem_of_singleton in Hin as ->. lia.
Qed.

(** What the comparison of [should_review_pr] amounts to. *)
Lemma newer_commit_decision times T :
  let b := match latest times with Some t => T <? t | None => false end in
  (times = [] -> b = false)
  /\ (b = true <-> exists m, latest times = Some m /\ T < m)
  /\ (b = true <-> exists t, t ∈ times /\ T < t)
  /\ ((forall t, t ∈ times -> t <= T) -> b = false).
Proof.
  intros b.
  assert (b = true <-> exists m, latest times = Some m /\ T < m) as Hlatest.
  { subst b. destruct (latest times) as [m|].
    - rewrite Z.ltb_lt. split; [eauto |]. by intros (m' & [= <-] & ?).
    - split; [done |]. by intros (m & ? & _). }
  split_and!.
  - by intros ->.
  - done.
  - by rewrite Hlatest, latest_exceeds.
  - intros Hall. apply not_true_is_false. rewrite Hlatest, latest_exceeds.
    intros (t & Ht & Hlt). specialize (Hall t Ht). lia.
Qed.

End OracleFacts.

(** ** Claims about the staleness oracle *)

Section OracleClaims.
Import Review Fixtures.




(** C3: for a pull request whose changed-file list is empty (or is not a
    list), the answer without the force flag is "no", with the skip line
    printed, whatever its comments are: they are not read, so this holds
    for a pull request that was never reviewed; with the force flag the
    answer is "yes". *)
Theorem pr_without_files_needs_no_review n w p :
  pull_files (github w) n = Ok p -> as_list p = [] ->
  should_review_pr n false w = (Ok false, logged w (NoFileChanges n))
  /\ should_review_pr n true w = (Ok true, w).
Proof.
  intros Hp Hempty. split; [| done].
  unfold should_review_pr, bind. rewrite (get_pr_files_eq _ _ _ Hp), Hempty.
  done.
Qed.

Lemma pr_without_files_witness :
  let w := world (repo [] [] [] [commit_at 50]) in
  get_last_claude_review ([] : list Comment) = None
  /\ should_review_pr 7 false w = (Ok false, logged w (NoFileChanges 7))
  /\ should_review_pr 7 true w = (Ok true, w).
Proof.
  intros w. split; [reflexivity |].
  apply (pr_without_files_needs_no_review 7 w (Items [])); reflexivity.
Defined.

(** C4 as the claim states it fails: with [T] the latest [updated_at]
    among the marker-bearing comments, a page whose first review was
    edited at 200 and whose second review dates from 100 has [T = 200];
    the only commit dates from 150, not later than [T], and still the
    answer is "yes". *)
Lemma latest_review_stamp_counterexample :
  let page := [review_at 200; review_at 100] in
  let w := world (repo ["src/lasso.rs"] page [] [commit_at 150]) in
  review_at 200 ∈ page
  /\ has_marker (review_at 200) = true
  /\ updated_at (review_at 200) = Some 200
  /\ (forall c t, c ∈ page -> has_marker c = true -> updated_at c = Some t -> t <= 200)
  /\ pull_files (github w) 7 = Ok (Items ["src/lasso.rs"])
  /\ issue_comments (github w) 7 = Ok (Items page)
  /\ pull_commits (github w) 7 = Ok (Items [commit_at 150])
  /\ latest (omap commit_date [commit_at 150]) = Some 150
  /\ ~ 200 < 150
  /\ should_review_pr 7 false w = (Ok true, w).
Proof.
  split_and!; try reflexivity; [by left | | lia].
  intros c t Hc _ Ht.
  apply elem_of_cons in Hc as [-> | Hc]; [injection Ht as <-; lia |].
  apply list_elem_of_singleton in Hc as ->. injection Ht as <-. lia.
Qed.

(** C4 (amended): for a pull request with changed files whose fetched
    comment page holds a marker-bearing comment, let [c] be the
    marker-bearing comment that stands last in the page (no comment after
    it bears the marker) and [T] its [updated_at].  Without the force flag
    the answer is "no" when no commit carries a date, and otherwise "yes"
    exactly when the latest commit date is strictly later than [T]:
    exactly when some commit date is; so dates all at or before [T] give
    "no".  [T] is the latest [updated_at] among the marker-bearing comments
    whenever these stand in non-decreasing order of [updated_at]. *)
Theorem reviewed_pr_needs_review_iff_commit_after_last_review
    n w p before c after r T :
  pull_files (github w) n = Ok p -> as_list p <> [] ->
  issue_comments (github w) n = Ok (Items (before ++ c :: after)) ->
  has_marker c = true ->
  Forall (fun c' => has_marker c' = false) after ->
  updated_at c = Some T ->
  pull_commits (github w) n = Ok r ->
  let times := omap commit_date (as_list r) in
  (exists b,
     should_review_pr n false w = (Ok b, w)
     /\ (times = [] -> b = false)
     /\ (b = true <-> exists m, latest times = Some m /\ T < m)
     /\ (b = true <-> exists t, t ∈ times /\ T < t)
     /\ ((forall t, t ∈ times -> t <= T) -> b = false))
  /\ (StronglySorted Z.le (review_stamps (before ++ c :: after)) ->
      forall t', t' ∈ review_stamps (before ++ c :: after) -> t' <= T).
Proof.
  intros Hp Hne Hq Hm Hafter HT Hr times. split.
  - pose proof (last_review_of_split before c after Hm Hafter) as Hc.
    rewrite (should_review_pr_reviewed n w p (Items (before ++ c :: after)) r c T
               Hp Hne Hq Hc HT Hr).
    fold times. eexists. split; [reflexivity |].
    apply newer_commit_decision.
  - by apply last_marked_stamp_is_greatest.
Qed.

Lemma reviewed_pr_last_review_witness :
  let page := [review_at 60; remark_at 70; review_at 100; remark_at 120] in
  let stale := world (repo ["src/lasso.rs"] page [] [commit_at 90; commit_at 100]) in
  let moved := world (repo ["src/lasso.rs"] page []
                        [commit_at 90; commit_at 100; commit_at 101]) in
  should_review_pr 7 false stale = (Ok false, stale)
  /\ should_review_pr 7 false moved = (Ok true, moved)
  /\ (exists b, should_review_pr 7 false moved = (Ok b, moved)
                /\ (b = true <-> exists t, t ∈ [90; 100; 101] /\ 100 < t))
  /\ forall t', t' ∈ review_stamps page -> t' <= 100.
Proof.
  intros page stale moved.
  assert (StronglySorted Z.le (review_stamps page)) as Hsorted.
  { change (review_stamps page) with [60; 100]. repeat constructor. lia. }
  destruct (reviewed_pr_needs_review_iff_commit_after_last_review 7 moved
              (Items ["src/lasso.rs"]) [review_at 60; remark_at 70] (review_at 100)
              [remark_at 120]
              (Items [commit_at 90; commit_at 100; commit_at 101]) 100)
    as [(b & Hb & _ & _ & Hiff & _) Hgreatest];
    try reflexivity; [done | by repeat constructor |].
  split_and!; [reflexivity | reflexivity | |].
  - exists b. split; [exact Hb | exact Hiff].
  - exact (Hgreatest Hsorted).
Defined.

(** C5: for an issue, without the force flag, the answer is "yes" exactly
    when no fetched comment bears the marker; nothing else of the issue is
    read, and the world is left as it was. *)
Theorem issue_needs_review_iff_no_marked_comment n w q :
  issue_comments (github w) n = Ok q ->
  exists b,
    should_review_issue n false w = (Ok b, w)
    /\ (b = true <-> forall c, c ∈ as_list q -> has_marker c = false).
Proof.
  intros Hq. unfold should_review_issue, bind.
  rewrite (get_issue_comments_eq _ _ _ Hq). eexists. split; [reflexivity |].
  rewrite <- no_review_iff_unmarked.
  by destruct (get_last_claude_review (as_list q)).
Qed.

Lemma issue_needs_review_witness :
  let fresh := world (repo [] [] [remark_at 10] []) in
  let seen := world (repo [] [] [remark_at 10; review_at 20] []) in
  should_review_issue 12 false fresh = (Ok true, fresh)
  /\ should_review_issue 12 false seen = (Ok false, seen)
  /\ exists b, should_review_issue 12 false seen = (Ok b, seen)
               /\ (b = true <->
                   forall c, c ∈ [remark_at 10; review_at 20] -> has_marker c = false).
Proof.
  intros fresh seen. split_and!; [reflexivity | reflexivity |].
  apply (issue_needs_review_iff_no_marked_comment 12 seen
           (Items [remark_at 10; review_at 20])).
  reflexivity.
Defined.

End OracleClaims.

(** ** Claims about the orchestrator *)

Section OrchestratorClaims.
Import Review Fixtures.

Variable json_loads : string -> option json.
Variable build_pr_prompt : Item -> string -> list string -> string -> string.
Variable build_issue_prompt : Item -> string -> string.

Lemma getenv_agree (env1 env2 : gmap string string) name fallback :
  env1 !! name = env2 !! name -> getenv env1 name fallback = getenv env2 name fallback.
Proof. unfold getenv. by intros ->. Qed.

(** [main] once the three required settings are there. *)
Lemma main_configured fuel environ w :
  ANTHROPIC_API_KEY environ <> "" -> GH_TOKEN environ <> "" -> REPO environ <> "" ->
  main json_loads build_pr_prompt build_issue_prompt fuel environ w =
  bind (if truthy (parse_targets json_loads (getenv environ "REVIEW_TARGETS" "[]"))
        then explicit_run build_pr_prompt build_issue_prompt (FORCE_REVIEW environ)
               (parse_targets json_loads (getenv environ "REVIEW_TARGETS" "[]"))
        else scan_run build_pr_prompt build_issue_prompt fuel (FORCE_REVIEW environ)
               (REVIEW_LABELS environ))
       (fun reviewed => print (Done reviewed)) w.
Proof.
  intros Hkey Htoken Hrepo. unfold main.
  by rewrite !bool_decide_eq_false_2.
Qed.

(** C7 (amended): when [REVIEW_TARGETS] is not JSON, [main] does not raise
    on it and works with the empty target list; the empty list sends it
    down the scan branch, so the run is the label scan, the same run as
    with no explicit targets, and posts whatever reviews the labelled items
    need. *)
Theorem malformed_targets_fall_back_to_scan fuel environ w :
  ANTHROPIC_API_KEY environ <> "" -> GH_TOKEN environ <> "" -> REPO environ <> "" ->
  json_loads (getenv environ "REVIEW_TARGETS" "[]") = None ->
  parse_targets json_loads (getenv environ "REVIEW_TARGETS" "[]") = JArray []
  /\ main json_loads build_pr_prompt build_issue_prompt fuel environ w =
     bind (scan_run build_pr_prompt build_issue_prompt fuel (FORCE_REVIEW environ)
             (REVIEW_LABELS environ))
          (fun reviewed => print (Done reviewed)) w.
Proof.
  intros Hkey Htoken Hrepo Hbad.
  assert (parse_targets json_loads (getenv environ "REVIEW_TARGETS" "[]") = JArray [])
    as Hparsed by (unfold parse_targets; by rewrite Hbad).
  split; [done |].
  by rewrite main_configured, Hparsed.
Qed.

(** C10: two environments that agree on every variable but [REVIEW_MODE]
    give the same run from every world; and, the required settings given,
    the branch [main] takes is fixed by the truth value of the parsed
    target list. *)
Theorem review_mode_is_ignored fuel (env1 env2 : gmap string string) :
  (forall name, name <> "REVIEW_MODE" -> env1 !! name = env2 !! name) ->
  (forall w,
     main json_loads build_pr_prompt build_issue_prompt fuel env1 w =
     main json_loads build_pr_prompt build_issue_prompt fuel env2 w)
  /\ (forall w,
        ANTHROPIC_API_KEY env1 <> "" -> GH_TOKEN env1 <> "" -> REPO env1 <> "" ->
        let targets := parse_targets json_loads (getenv env1 "REVIEW_TARGETS" "[]") in
        main json_loads build_pr_prompt build_issue_prompt fuel env1 w =
        bind (if truthy targets
              then explicit_run build_pr_prompt build_issue_prompt (FORCE_REVIEW env1) targets
              else scan_run build_pr_prompt build_issue_prompt fuel (FORCE_REVIEW env1)
                     (REVIEW_LABELS env1))
             (fun reviewed => print (Done reviewed)) w).
Proof.
  intros Hagree. split; [| intros w; apply main_configured].
  intros w. unfold main, ANTHROPIC_API_KEY, GH_TOKEN, REPO, FORCE_REVIEW, REVIEW_LABELS.
  rewrite (getenv_agree env1 env2 "ANTHROPIC_API_KEY") by by apply Hagree.
  rewrite (getenv_agree env1 env2 "GH_TOKEN") by by apply Hagree.
  rewrite (getenv_agree env1 env2 "GITHUB_REPOSITORY") by by apply Hagree.
  rewrite (getenv_agree env1 env2 "REVIEW_TARGETS") by by apply Hagree.
  rewrite (getenv_agree env1 env2 "FORCE_REVIEW") by by apply Hagree.
  rewrite (getenv_agree env1 env2 "REVIEW_LABELS") by by apply Hagree.
  done.
Qed.

End OrchestratorClaims.

Section OrchestratorExamples.
Import Review Fixtures.

(** C7 as the claim states it fails: with [REVIEW_TARGETS] set to [pr:7]
    without quotes, which is not JSON, the run scans the labels and posts
    two reviews. *)
Lemma malformed_targets_counterexample :
  let environ := <["REVIEW_TARGETS" := "pr:7"]> credentials in
  let w := world (repo ["src/lasso.rs"] [] [] [commit_at 50]) in
  let run := main loads_empty_array_only plain_pr_prompt plain_issue_prompt 2 environ w in
  loads_empty_array_only (getenv environ "REVIEW_TARGETS" "[]") = None
  /\ fst run = Ok tt
  /\ (posted (snd run)).*1 = [7; 12]
  /\ output (snd run) =
     [ScanMode; ReviewingPR 7; PostedComment 7; ReviewingIssue 12; PostedComment 12; Done 2].
Proof. split_and!; by vm_compute. Qed.

Lemma malformed_targets_witness :
  let environ := <["REVIEW_TARGETS" := "pr:7"]> credentials in
  let w := world (repo ["src/lasso.rs"] [] [] [commit_at 50]) in
  main loads_empty_array_only plain_pr_prompt plain_issue_prompt 2 environ w =
  bind (scan_run plain_pr_prompt plain_issue_prompt 2 (FORCE_REVIEW environ)
          (REVIEW_LABELS environ))
       (fun reviewed => print (Done reviewed)) w.
Proof.
  intros environ w.
  apply (malformed_targets_fall_back_to_scan loads_empty_array_only
           plain_pr_prompt plain_issue_prompt 2 environ w);
    by vm_compute.
Defined.

Lemma review_mode_witness :
  let scan := <["REVIEW_MODE" := "scan"]> credentials in
  let explicit := <["REVIEW_MODE" := "explicit"]> credentials in
  let w := world (repo ["src/lasso.rs"] [] [] [commit_at 50]) in
  main loads_empty_array_only plain_pr_prompt plain_issue_prompt 2 scan w =
  main loads_empty_array_only plain_pr_prompt plain_issue_prompt 2 explicit w.
Proof.
  intros scan explicit w.
  refine (proj1 (review_mode_is_ignored loads_empty_array_only plain_pr_prompt
                   plain_issue_prompt 2 scan explicit _) w).
  intros name Hname. unfold scan, explicit.
  by rewrite !lookup_insert_ne.
Defined.

End OrchestratorExamples.

(** ** The license gate *)

Section LicenseClaims.
Import LicenseGate.

Lemma extract_tokens_spec expr t :
  t ∈ extract_tokens expr <-> t ∈ findall (or_empty expr) /\ t ∉ OPERATORS.
Proof.
  unfold extract_tokens. rewrite elem_of_filter, elem_of_list_to_set. tauto.
Qed.

Lemma any_in_set (tokens ids : gset string) :
  existsb (fun t => bool_decide (t ∈ ids)) (elements tokens) = true <->
  exists t, t ∈ tokens /\ t ∈ ids.
Proof.
  rewrite existsb_exists. split.
  - intros (t & Hin & Ht). exists t.
    apply list_elem_of_In, elem_of_elements in Hin.
    by apply bool_decide_eq_true in Ht.
  - intros (t & Hin & Ht). exists t. split.
    + by apply list_elem_of_In, elem_of_elements.
    + by apply bool_decide_eq_true.
Qed.

(** C9: for an expression with a non-empty token set, the verdict is
    "acceptable" exactly when some token is an allowed identifier and
    either no token is a banned identifier or the text "OR" occurs in the
    raw expression; the token set holds the [TOKEN_RE] matches of the
    expression other than the operator words AND, OR and WITH. *)
Theorem license_expression_acceptance expr :
  extract_tokens expr <> ∅ ->
  (fst (is_acceptable_expression expr) = true <->
   (exists t, t ∈ extract_tokens expr /\ t ∈ ALLOWED_LICENSE_IDS)
   /\ ((forall t, t ∈ extract_tokens expr -> t ∉ BANNED_ONLY_IDS)
       \/ PyStr.contains "OR" (or_empty expr) = true))
  /\ ("AND" ∉ extract_tokens expr)
  /\ ("OR" ∉ extract_tokens expr)
  /\ ("WITH" ∉ extract_tokens expr)
  /\ (forall t, t ∈ extract_tokens expr <->
                t ∈ findall (or_empty expr) /\ t ∉ OPERATORS)
  /\ (PyStr.contains "OR" (or_empty expr) = true <->
      exists pre post, or_empty expr = pre +:+ "OR" +:+ post).
Proof.
  intros Hne. split_and!.
  - unfold is_acceptable_expression. rewrite (bool_decide_eq_false_2 _ Hne).
    rewrite <- any_in_set.
    destruct (existsb _ (elements (extract_tokens expr))) eqn:Hallowed; simpl;
      [| split; [done | by intros [? _]]].
    destruct (existsb (fun t => bool_decide (t ∈ BANNED_ONLY_IDS)) _) eqn:Hbanned; simpl.
    + apply any_in_set in Hbanned as (t & Hin & Ht).
      destruct (PyStr.contains "OR" (or_empty expr)); simpl.
      * split; [by auto | done].
      * split; [done |]. intros [_ [Hnone | ?]]; [| done].
        by destruct (Hnone t Hin).
    + split; [| done]. intros _. split; [done |]. left. intros t Hin Ht.
      apply not_true_iff_false in Hbanned. apply Hbanned, any_in_set. eauto.
  - rewrite extract_tokens_spec. intros [_ H]. apply H. by vm_compute.
  - rewrite extract_tokens_spec. intros [_ H]. apply H. by vm_compute.
  - rewrite extract_tokens_spec. intros [_ H]. apply H. by vm_compute.
  - apply extract_tokens_spec.
  - apply contains_spec.
Qed.

(** The test for "OR" is made on the raw text: an "OR" inside a longer
    word counts as well. *)
Remark or_inside_a_word_counts :
  is_acceptable_expression (Some "MIT AND GPL-3.0-only WITH CORE-exception") = (true, "ok")
  /\ is_acceptable_expression (Some "MIT AND GPL-3.0-only") =
     (false, "banned copyleft-only expression (MIT AND GPL-3.0-only)").
Proof. split; reflexivity. Qed.

Lemma license_expression_witness :
  extract_tokens (Some "MIT OR GPL-3.0-only") <> ∅
  /\ fst (is_acceptable_expression (Some "MIT OR GPL-3.0-only")) = true
  /\ fst (is_acceptable_expression (Some "MIT AND GPL-3.0-only")) = false
  /\ (fst (is_acceptable_expression (Some "MIT OR GPL-3.0-only")) = true <->
      (exists t, t ∈ extract_tokens (Some "MIT OR GPL-3.0-only") /\ t ∈ ALLOWED_LICENSE_IDS)
      /\ ((forall t, t ∈ extract_tokens (Some "MIT OR GPL-3.0-only") -> t ∉ BANNED_ONLY_IDS)
          \/ PyStr.contains "OR" (or_empty (Some "MIT OR GPL-3.0-only")) = true)).
Proof.
  assert (extract_tokens (Some "MIT OR GPL-3.0-only") <> ∅) as Hne by by vm_compute.
  split_and!; [exact Hne | reflexivity | reflexivity |].
  exact (proj1 (license_expression_acceptance (Some "MIT OR GPL-3.0-only") Hne)).
Defined.

End LicenseClaims.

(** * Further properties of the code *)

(** ** The context selector as a comprehension *)

Section SelectorMore.
Import Docs Spec.

Lemma select_loop_closed disk text_lower rules :
  forall selected,
    NoDup (snd <$> rules) ->
    (forall p, p ∈ snd <$> rules -> p ∉ selected) ->
    fold_left (select_step disk text_lower) rules selected
    = selected ++ (snd <$> List.filter (rule_selected disk text_lower) rules).
Proof.
  induction rules as [|[keywords doc_path] rules IH]; intros selected Hnd Hfresh.
  - simpl. by rewrite app_nil_r.
  - apply NoDup_cons in Hnd as [Hhead Hnd].
    assert (doc_path ∉ selected) as Hnew by (apply Hfresh; by left).
    cbn [fold_left List.filter fmap list_fmap]. unfold select_step at 2, rule_selected at 1.
    cbn [fst snd]. rewrite (bool_decide_eq_false_2 _ Hnew). cbn [negb andb].
    destruct (existsb (keyword_hits text_lower) keywords); cbn [andb].
    + destruct (exists_ disk doc_path).
      * rewrite IH; [by rewrite <- app_assoc | done |].
        intros p Hp [Hin | ->%list_elem_of_singleton]%elem_of_app; [| done].
        apply (Hfresh p); [by right | done].
      * apply IH; [done |]. intros p Hp. apply Hfresh. by right.
    + apply IH; [done |]. intros p Hp. apply Hfresh. by right.
Qed.

Lemma keyword_docs_nodup : NoDup (snd <$> KEYWORD_DOC_MAP).
Proof.
  apply (bool_decide_eq_true_1 _ (Decision0 := NoDup_dec _)). by vm_compute.
Qed.

Lemma select_docs_closed disk text :
  select_docs disk text
  = ALWAYS_INCLUDE_DOCS
    ++ (snd <$> List.filter (rule_selected disk (PyStr.lower text)) KEYWORD_DOC_MAP).
Proof.
  unfold select_docs. apply select_loop_closed; [apply keyword_docs_nodup |].
  intros p (rule & -> & Hrule)%list_elem_of_fmap.
  by apply (proj1 (Forall_forall _ _) keyword_docs_not_always).
Qed.

(** X1: The loop of [select_docs] computes a comprehension: the always-include
    list, then the documents of the rules that fire and whose document is
    on disk, in the order of the table.  So a document is selected exactly
    when it is an always-include document, or it is on disk and one of the
    keywords of its rule is found in the lower-cased text. *)
Theorem select_docs_is_filter_of_table disk text :
  select_docs disk text
  = ALWAYS_INCLUDE_DOCS
    ++ (snd <$> List.filter (rule_selected disk (PyStr.lower text)) KEYWORD_DOC_MAP)
  /\ forall p,
       p ∈ select_docs disk text <->
       p ∈ ALWAYS_INCLUDE_DOCS
       \/ exists keywords kw,
            (keywords, p) ∈ KEYWORD_DOC_MAP /\ kw ∈ keywords
            /\ keyword_hits (PyStr.lower text) kw = true /\ exists_ disk p = true.
Proof.
  split; [apply select_docs_closed |]. intros p.
  rewrite select_docs_closed, elem_of_app. apply or_iff_compat_l.
  rewrite list_elem_of_fmap. split.
  - intros ([keywords q] & -> & [Hin Hsel]%list_elem_of_In%filter_In).
    unfold rule_selected in Hsel. simpl in *.
    apply andb_true_iff in Hsel as [(kw & Hkw & Hhit)%existsb_exists Hdisk].
    exists keywords, kw. split_and!; [by apply list_elem_of_In | by apply list_elem_of_In | done..].
  - intros (keywords & kw & Hin & Hkw & Hhit & Hdisk). exists (keywords, p).
    split; [done |]. apply list_elem_of_In, filter_In.
    split; [by apply list_elem_of_In |]. unfold rule_selected. simpl.
    apply andb_true_iff. split; [| done]. apply existsb_exists.
    exists kw. split; [by apply list_elem_of_In | done].
Qed.

Lemma compile_literal kw :
  "."%char ∉ PyStr.chars kw -> Regex.compile kw = Regex.Lit <$> PyStr.chars kw.
Proof.
  unfold Regex.compile. induction (PyStr.chars kw) as [|c l IH]; intros Hdot; [done |].
  simpl. rewrite bool_decide_eq_false_2.
  - f_equal. apply IH. intros Hin. apply Hdot. by right.
  - intros ->. apply Hdot. by left.
Qed.

Lemma match_here_literal l t :
  Regex.match_here (Regex.Lit <$> l) t = PyStr.starts l t.
Proof.
  revert t. induction l as [|a l IH]; intros t; [done |].
  destruct t as [|b t]; [done |].
  cbn [fmap list_fmap]. rewrite match_here_lit. simpl. by rewrite <- IH.
Qed.

Lemma search_literal l t : Regex.search (Regex.Lit <$> l) t = PyStr.occurs l t.
Proof.
  induction t as [|b t IH]; simpl; rewrite match_here_literal; [done |].
  by rewrite IH.
Qed.

(** X2: A keyword without a dot fires exactly when it occurs somewhere in the
    lower-cased text: no word boundary is asked for, so [tab] fires on
    "stable". *)
Theorem literal_keyword_is_substring_test text_lower kw :
  "."%char ∉ PyStr.chars kw ->
  keyword_hits text_lower kw = PyStr.contains kw text_lower.
Proof.
  intros Hdot. unfold keyword_hits, PyStr.contains.
  by rewrite compile_literal, search_literal.
Qed.

Lemma literal_keyword_witness :
  ("."%char ∉ PyStr.chars "tab")
  /\ keyword_hits "a stable release" "tab" = PyStr.contains "tab" "a stable release"
  /\ keyword_hits "a stable release" "tab" = true.
Proof.
  assert ("."%char ∉ PyStr.chars "tab") as Hdot.
  { intros Hin. by repeat (apply elem_of_cons in Hin as [? | Hin]; [done |]);
                  apply elem_of_nil in Hin. }
  split_and!; [exact Hdot | | reflexivity].
  exact (literal_keyword_is_substring_test "a stable release" "tab" Hdot).
Defined.

End SelectorMore.

(** ** Cutting documents and diffs to a number of lines *)

Section Truncation.
Import PyStr Docs Review Spec.

Local Abbreviation LF := ("010"%char) (only parsing).

Lemma no_break_nil : no_break [].
Proof. constructor. Qed.

Lemma splitlines_chars_line l :
  no_break l ->
  forall cur rest,
    splitlines_chars cur (l ++ LF :: rest) = (rev cur ++ l) :: splitlines_chars [] rest.
Proof.
  induction 1 as [|a l Ha _ IH]; intros cur rest.
  - rewrite app_nil_r. destruct rest as [|c rest]; reflexivity.
  - change ((a :: l) ++ LF :: rest) with (a :: (l ++ LF :: rest)).
    cbn [splitlines_chars]. rewrite Ha, IH. simpl. by rewrite <- app_assoc.
Qed.

Lemma splitlines_chars_last l :
  no_break l ->
  forall cur,
    splitlines_chars cur l = match rev cur ++ l with [] => [] | _ :: _ => [rev cur ++ l] end.
Proof.
  induction 1 as [|a l Ha _ IH]; intros cur.
  - rewrite app_nil_r. destruct cur as [|c cur]; [done |].
    simpl. destruct (rev cur ++ [c]) eqn:E; [| done].
    by apply app_eq_nil in E as [_ ?].
  - cbn [splitlines_chars]. rewrite Ha, IH. simpl. rewrite <- app_assoc. simpl.
    destruct (rev cur ++ a :: l) eqn:E; [| done].
    by apply app_eq_nil in E as [_ ?].
Qed.

(** Lines joined by newlines and followed by one more newline split back
    into the same lines, when no line holds a line boundary. *)
Lemma splitlines_chars_join parts rest :
  parts <> [] ->
  Forall (fun p => no_break (chars p)) parts ->
  splitlines_chars [] (chars (join nl parts) ++ LF :: rest)
  = (chars <$> parts) ++ splitlines_chars [] rest.
Proof.
  intros Hne Hparts. induction Hparts as [|p parts Hp Hparts IH]; [done |].
  destruct parts as [|q parts].
  - simpl. by rewrite (splitlines_chars_line _ Hp).
  - change (join nl (p :: q :: parts)) with (p +:+ nl +:+ join nl (q :: parts)).
    rewrite !chars_append. change (chars nl) with [LF].
    rewrite <- !app_assoc. change ([LF] ++ ?x) with (LF :: x).
    rewrite (splitlines_chars_line _ Hp). rewrite IH by done. done.
Qed.

Lemma splitlines_chars_no_break n :
  forall l cur, (length l <= n)%nat -> no_break cur ->
                Forall no_break (splitlines_chars cur l).
Proof.
  induction n as [|n IH]; intros l cur Hlen Hcur.
  - destruct l; [| simpl in Hlen; lia].
    simpl. destruct cur; [constructor |]. repeat constructor.
    by apply Forall_rev.
  - destruct l as [|c l]; [apply IH; [simpl; lia | done] |].
    simpl in Hlen. cbn [splitlines_chars].
    destruct (is_linebreak c) eqn:Hc.
    + destruct l as [|c' l].
      * repeat constructor. by apply Forall_rev.
      * destruct (_ && _); constructor; try by apply Forall_rev.
        -- apply IH; [simpl in *; lia | constructor].
        -- apply IH; [simpl in *; lia | constructor].
    + apply IH; [lia |]. by constructor.
Qed.

Lemma splitlines_no_break s : Forall (fun p => no_break (chars p)) (splitlines s).
Proof.
  unfold splitlines. apply Forall_fmap.
  eapply Forall_impl; [apply (splitlines_chars_no_break _ _ [] (le_n _)); constructor |].
  intros l Hl. simpl. by rewrite chars_of_chars.
Qed.

Lemma digits_no_break d : no_break (chars (NilEmpty.string_of_uint d)).
Proof. induction d; simpl; by repeat constructor. Qed.

Lemma str_nat_no_break n : no_break (chars (str_nat n)).
Proof.
  unfold str_nat, NilZero.string_of_uint.
  destruct (Nat.to_uint n) eqn:E; try apply digits_no_break.
  by repeat constructor.
Qed.

(** A text made of kept lines, an empty line and a one-line note splits
    into exactly those. *)
Lemma splitlines_cut parts note :
  parts <> [] ->
  Forall (fun p => no_break (chars p)) parts ->
  no_break (chars note) -> note <> "" ->
  splitlines (join nl parts +:+ nl +:+ nl +:+ note) = parts ++ [""; note].
Proof.
  intros Hne Hparts Hnote Hnonempty. unfold splitlines.
  rewrite !chars_append. change (chars nl) with [LF].
  change ([LF] ++ [LF] ++ chars note) with (LF :: ([] ++ LF :: chars note)).
  rewrite (splitlines_chars_join _ _ Hne Hparts).
  rewrite (splitlines_chars_line [] no_break_nil).
  rewrite (splitlines_chars_last _ Hnote). simpl.
  destruct (chars note) eqn:E.
  { destruct note; [done | discriminate]. }
  rewrite <- E, fmap_app. simpl. rewrite of_chars_chars.
  f_equal. rewrite <- list_fmap_compose.
  rewrite <- (list_fmap_id parts) at 2. apply list_fmap_ext.
  intros _ x _. apply of_chars_chars.
Qed.

Lemma take_nonempty {A} (l : list A) n : (0 < n)%nat -> (n < length l)%nat -> take n l <> [].
Proof. destruct l, n; simpl; intros; (lia || done). Qed.

(** X4: [load_docs], one document: a document of at most 150 lines is handed
    on as it is; a longer one is cut so that what is handed on splits into
    its first 150 lines, an empty line and a note with the number of lines
    left out. *)
Theorem load_one_keeps_first_150_lines p w content :
  read_doc (disk w) p = Some content ->
  let lines := splitlines content in
  ((length lines <= 150)%nat ->
   load_one p w = (Ok ("### " +:+ path_str p +:+ nl +:+ nl +:+ content), w))
  /\ ((150 < length lines)%nat ->
      exists cut,
        load_one p w = (Ok ("### " +:+ path_str p +:+ nl +:+ nl +:+ cut), w)
        /\ splitlines cut
           = take 150 lines
             ++ [""; "... (" +:+ str_nat (length lines - 150)
                       +:+ " more lines — read full file if needed)"]).
Proof.
  intros Hread lines. unfold load_one, bind, ask. rewrite Hread. fold lines. split.
  - intros Hshort. apply Nat.ltb_ge in Hshort. by rewrite Hshort.
  - intros Hlong. pose proof Hlong as Hlt. apply Nat.ltb_lt in Hlt. rewrite Hlt.
    eexists. split; [reflexivity |].
    apply splitlines_cut.
    + apply take_nonempty; lia.
    + apply Forall_take, splitlines_no_break.
    + rewrite !chars_append. apply Forall_app. split; [by repeat constructor |].
      apply Forall_app. split; [apply str_nat_no_break | by repeat constructor].
    + done.
Qed.

End Truncation.

Section TruncationExamples.
Import PyStr Docs Review Spec Fixtures.

Lemma load_one_witness :
  let w := {| github := repo [] [] [] []; generator := fun _ => Ok "";
              disk := long_documents; posted := []; output := [] |} in
  let p := strategy "2026-02-22_registry_layer_plan.md" in
  read_doc (disk w) p = Some (text_of_lines 400)
  /\ exists cut,
       load_one p w = (Ok ("### " +:+ path_str p +:+ nl +:+ nl +:+ cut), w)
       /\ splitlines cut
          = take 150 (splitlines (text_of_lines 400))
            ++ [""; "... (250 more lines — read full file if needed)"].
Proof.
  intros w p. split; [reflexivity |].
  apply (proj2 (load_one_keeps_first_150_lines p w (text_of_lines 400) eq_refl)).
  vm_compute. lia.
Defined.

End TruncationExamples.

Section DiffTruncation.
Import PyStr Docs Review Spec Fixtures.

Lemma chars_inj s1 s2 : chars s1 = chars s2 -> s1 = s2.
Proof. intros H. by rewrite <- (of_chars_chars s1), H, of_chars_chars. Qed.

Lemma join_snoc sep parts x :
  parts <> [] -> join sep (parts ++ [x]) = join sep parts +:+ sep +:+ x.
Proof.
  induction parts as [|p parts IH]; [done |]. intros _.
  destruct parts as [|q parts]; [done |].
  change (join sep ((p :: q :: parts) ++ [x]))
    with (p +:+ sep +:+ join sep ((q :: parts) ++ [x])).
  rewrite IH by done.
  change (join sep (p :: q :: parts)) with (p +:+ sep +:+ join sep (q :: parts)).
  apply chars_inj. by rewrite !chars_append, <- !app_assoc.
Qed.

(** X5: [get_pr_diff]: without status 200 the placeholder is returned; a diff
    of more than 300 lines is cut so that the result splits into its first
    300 lines, an empty line and a note with the number of lines left out;
    a shorter diff is returned with its lines joined by newlines. *)
Theorem get_pr_diff_keeps_first_300_lines n w reply :
  pull_diff (github w) n = Ok reply ->
  match reply with
  | None => get_pr_diff n w = (Ok "(diff not available)", w)
  | Some text =>
      let lines := splitlines text in
      ((length lines <= 300)%nat -> get_pr_diff n w = (Ok (join nl lines), w))
      /\ ((300 < length lines)%nat ->
          exists cut,
            get_pr_diff n w = (Ok cut, w)
            /\ splitlines cut
               = take 300 lines
                 ++ [""; "... (" +:+ str_nat (length lines - 300)
                           +:+ " more lines truncated)"])
  end.
Proof.
  intros Hreply. unfold get_pr_diff, bind, ask. rewrite Hreply.
  destruct reply as [text|]; [| done]. split.
  - intros Hshort. apply Nat.ltb_ge in Hshort. by rewrite Hshort.
  - intros Hlong. pose proof Hlong as Hlt. apply Nat.ltb_lt in Hlt. rewrite Hlt.
    eexists. split; [reflexivity |].
    rewrite join_snoc by (apply take_nonempty; lia).
    apply splitlines_cut.
    + apply take_nonempty; lia.
    + apply Forall_take, splitlines_no_break.
    + rewrite !chars_append. apply Forall_app. split; [by repeat constructor |].
      apply Forall_app. split; [apply str_nat_no_break | by repeat constructor].
    + done.
Qed.

Lemma get_pr_diff_witness :
  let w := world (repo ["src/lasso.rs"] [] [] []) in
  pull_diff (github w) 7 = Ok (Some "+fn lasso() {}")
  /\ get_pr_diff 7 w = (Ok "+fn lasso() {}", w)
  /\ get_pr_diff 8 w = (Ok "(diff not available)", w).
Proof.
  intros w. split_and!; [reflexivity | |].
  - apply (proj1 (get_pr_diff_keeps_first_300_lines 7 w (Some "+fn lasso() {}") eq_refl)).
    vm_compute. lia.
  - exact (get_pr_diff_keeps_first_300_lines 8 w None eq_refl).
Defined.

End DiffTruncation.

(** ** More on the staleness oracle *)

Section OracleMore.
Import Docs Review Spec Fixtures.

(** X6: A pull request with changed files and no marked comment is reviewed,
    and its commits are not asked for: the answer is the same when the
    commits endpoint fails. *)
Theorem unreviewed_pr_with_files_needs_review n w p q :
  pull_files (github w) n = Ok p -> as_list p <> [] ->
  issue_comments (github w) n = Ok q ->
  (forall c, c ∈ as_list q -> has_marker c = false) ->
  should_review_pr n false w = (Ok true, w).
Proof.
  intros Hp Hne Hq Hnone.
  apply (should_review_pr_never_reviewed n w p q); [done..|].
  by apply no_review_iff_unmarked.
Qed.

Lemma unreviewed_pr_witness :
  let w := world (commits_down (repo ["src/lasso.rs"] [remark_at 10] [] [])) in
  pull_commits (github w) 7 = Raise HTTPError
  /\ should_review_pr 7 false w = (Ok true, w).
Proof.
  intros w. split; [reflexivity |].
  apply (unreviewed_pr_with_files_needs_review 7 w
           (Items ["src/lasso.rs"]) (Items [remark_at 10])); try reflexivity; [done |].
  intros c Hc. apply list_elem_of_singleton in Hc as ->. reflexivity.
Defined.

(** X7: [get_pr_latest_commit_time]: a commit counts with its committer date,
    or with its author date when it has no committer date; the result is
    the greatest date among the commits, and nothing exactly when no
    commit has a date (no list, no commits, or commits without dates). *)
Theorem latest_commit_time_is_greatest_date n w r :
  pull_commits (github w) n = Ok r ->
  exists o,
    get_pr_latest_commit_time n w = (Ok o, w)
    /\ (o = None <->
        forall c, c ∈ as_list r -> committer_date c = None /\ author_date c = None)
    /\ (forall m, o = Some m ->
          (exists c, c ∈ as_list r /\ commit_date c = Some m)
          /\ forall c t, c ∈ as_list r -> commit_date c = Some t -> t <= m)
    /\ (forall c t, commit_date c = Some t <->
          committer_date c = Some t \/ (committer_date c = None /\ author_date c = Some t)).
Proof.
  intros Hr. rewrite (get_pr_latest_commit_time_eq _ _ _ Hr).
  eexists. split; [reflexivity |].
  pose proof (latest_spec (omap commit_date (as_list r))) as Hlatest.
  assert (forall c t, commit_date c = Some t <->
            committer_date c = Some t \/ (committer_date c = None /\ author_date c = Some t))
    as Hdate.
  { intros c t. unfold commit_date. destruct (committer_date c) as [t0|].
    - split; [by left | by intros [? | [? _]]].
    - split; [by right | by intros [? | [_ ?]]]. }
  split_and!; [| | done].
  - destruct (latest _) as [m|].
    + destruct Hlatest as [(c & Hc & Hm)%list_elem_of_omap _].
      split; [done |]. intros Hnone. destruct (Hnone c Hc) as [H1 H2].
      apply Hdate in Hm as [Hm | [_ Hm]]; congruence.
    + split; [| done]. intros _ c Hc.
      destruct (commit_date c) as [t|] eqn:Ht.
      * assert (t ∈ omap commit_date (as_list r)) as Hin
          by (apply list_elem_of_omap; eauto).
        rewrite Hlatest in Hin. by apply elem_of_nil in Hin.
      * unfold commit_date in Ht. by destruct (committer_date c).
  - intros m Hm. rewrite Hm in Hlatest. destruct Hlatest as [Hin Hmax]. split.
    + apply list_elem_of_omap in Hin as (c & ? & ?). eauto.
    + intros c t Hc Ht. apply Hmax, list_elem_of_omap. eauto.
Qed.

Lemma latest_commit_time_witness :
  let w := world (repo ["src/lasso.rs"] [] []
                    [commit_at 90; {| committer_date := None; author_date := Some 120 |};
                     {| committer_date := Some 100; author_date := Some 300 |};
                     {| committer_date := None; author_date := None |}]) in
  get_pr_latest_commit_time 7 w = (Ok (Some 120), w)
  /\ exists o, get_pr_latest_commit_time 7 w = (Ok o, w)
               /\ forall m, o = Some m ->
                    forall c t, c ∈ as_list (Items [commit_at 90;
                                   {| committer_date := None; author_date := Some 120 |};
                                   {| committer_date := Some 100; author_date := Some 300 |};
                                   {| committer_date := None; author_date := None |}]) ->
                                commit_date c = Some t -> t <= m.
Proof.
  intros w. split; [reflexivity |].
  destruct (latest_commit_time_is_greatest_date 7 w _ eq_refl) as (o & Ho & _ & Hmax & _).
  exists o. split; [exact Ho |]. intros m Hm. exact (proj2 (Hmax m Hm)).
Defined.

Lemma starts_occurs l t : PyStr.starts l t = true -> PyStr.occurs l t = true.
Proof. intros H. destruct t; simpl in *; by rewrite H. Qed.

Lemma with_marker_marked review : marked (with_marker review).
Proof.
  unfold marked, with_marker. destruct (PyStr.startswith review REVIEW_MARKER) eqn:H; [done |].
  unfold PyStr.startswith. apply starts_spec. rewrite chars_append. eauto.
Qed.

Lemma with_marker_has_marker review t :
  has_marker {| body := Some (with_marker review); updated_at := t |} = true.
Proof. unfold has_marker, PyStr.contains. simpl. apply starts_occurs, with_marker_marked. Qed.

(** X8: [with_marker], the text handed to [post_comment]: it always begins
    with the marker, so the posted comment is recognised as a review by
    [has_marker] whatever its date; a text that begins with the marker is
    posted as it is, and anything else gets the marker and a newline in
    front. *)
Theorem posted_text_always_carries_marker review :
  marked (with_marker review)
  /\ (forall t, has_marker {| body := Some (with_marker review); updated_at := t |} = true)
  /\ (if PyStr.startswith review REVIEW_MARKER
      then with_marker review = review
      else with_marker review = REVIEW_MARKER +:+ PyStr.nl +:+ review)
  /\ with_marker (with_marker review) = with_marker review.
Proof.
  pose proof (with_marker_marked review) as Hmarked.
  split_and!; [done | | |].
  - intros t. apply with_marker_has_marker.
  - unfold with_marker. by destruct (PyStr.startswith review REVIEW_MARKER).
  - unfold with_marker at 1. unfold marked in Hmarked. by rewrite Hmarked.
Qed.

End OracleMore.

(** ** What a run does to the world *)

Section Effects.
Import Docs Review Spec.

Lemma bind_inv {A B} (c : M A) (k : A -> M B) w r w' :
  bind c k w = (r, w') ->
  (exists a w1, c w = (Ok a, w1) /\ k a w1 = (r, w'))
  \/ (exists e, c w = (Raise e, w') /\ r = Raise e).
Proof.
  unfold bind. destruct (c w) as [[a|e] w1]; intros H.
  - left. eauto.
  - right. injection H as <- <-. eauto.
Qed.

Lemma effect_refl w : effect w w [] [].
Proof. split; by rewrite ?app_nil_r. Qed.

Lemma effect_trans w w1 w2 new1 out1 new2 out2 :
  effect w w1 new1 out1 -> effect w1 w2 new2 out2 ->
  effect w w2 (new1 ++ new2) (out1 ++ out2).
Proof.
  intros [Hg1 Hq1 Hd1 Hp1 Ho1] [Hg2 Hq2 Hd2 Hp2 Ho2]. split.
  - rewrite Hg2, Hg1. unfold replay. by rewrite fold_left_app.
  - congruence.
  - congruence.
  - by rewrite Hp2, Hp1, <- app_assoc.
  - by rewrite Ho2, Ho1, <- app_assoc.
Qed.

Lemma effect_logged w e : effect w (logged w e) [] [e].
Proof. split; simpl; by rewrite ?app_nil_r. Qed.

Lemma reads_ret {A} (a : A) : reads (ret a).
Proof. by intros w r w' [= _ <-]. Qed.

Lemma reads_raise {A} e : reads (@raise A e).
Proof. by intros w r w' [= _ <-]. Qed.

Lemma reads_ask {A} (f : World -> result A) : reads (ask f).
Proof. by intros w r w' [= _ <-]. Qed.

Lemma reads_bind {A B} (c : M A) (k : A -> M B) :
  reads c -> (forall a, reads (k a)) -> reads (bind c k).
Proof.
  intros Hc Hk w r w' [(a & w1 & H1 & H2) | (e & H1 & _)]%bind_inv.
  - apply Hc in H1 as ->. by apply Hk in H2.
  - by apply Hc in H1.
Qed.

Lemma reads_mapM {A B} (f : A -> M B) l : (forall a, reads (f a)) -> reads (mapM f l).
Proof.
  intros Hf. induction l as [|a l IH]; simpl; [apply reads_ret |].
  apply reads_bind; [apply Hf |]. intros b.
  apply reads_bind; [apply IH |]. intros bs. apply reads_ret.
Qed.

Lemma reads_foldM {A S} (f : S -> A -> M S) l :
  (forall s a, reads (f s a)) -> forall s, reads (foldM f l s).
Proof.
  intros Hf. induction l as [|a l IH]; intros s; simpl; [apply reads_ret |].
  apply reads_bind; [apply Hf | apply IH].
Qed.

Ltac reads_step :=
  first [ apply reads_ret | apply reads_raise | apply reads_ask
        | apply reads_bind; [| intros ?]
        | match goal with |- reads (match ?x with _ => _ end) => destruct x end
        | match goal with |- reads (if ?x then _ else _) => destruct x end ].

Lemma reads_get_pr_files n : reads (get_pr_files n).
Proof. unfold get_pr_files. repeat reads_step. Qed.

Lemma reads_get_issue_comments n : reads (get_issue_comments n).
Proof. unfold get_issue_comments. repeat reads_step. Qed.

Lemma reads_get_pr_latest_commit_time n : reads (get_pr_latest_commit_time n).
Proof. unfold get_pr_latest_commit_time. repeat reads_step. Qed.

Lemma reads_get_pr_diff n : reads (get_pr_diff n).
Proof. unfold get_pr_diff. repeat reads_step. Qed.

Lemma reads_load_docs paths : reads (load_docs paths).
Proof.
  unfold load_docs. apply reads_bind; [| intros ?; apply reads_ret].
  apply reads_mapM. intros p. unfold load_one. repeat reads_step.
Qed.

Lemma reads_should_review_issue n force : reads (should_review_issue n force).
Proof.
  unfold should_review_issue. destruct force; [apply reads_ret |].
  apply reads_bind; [apply reads_get_issue_comments | intros ?; apply reads_ret].
Qed.

Lemma reads_pulls_from fuel labels :
  forall page found, reads (pulls_from fuel labels page found).
Proof.
  induction fuel as [|fuel IH]; intros page found; simpl; [apply reads_raise |].
  apply reads_bind; [apply reads_ask |]. intros [|[|pr prs]]; try apply reads_ret.
  destruct (Nat.ltb _ _); [apply reads_ret | apply IH].
Qed.

Lemma reads_issues_from fuel label :
  forall page found, reads (issues_from fuel label page found).
Proof.
  induction fuel as [|fuel IH]; intros page found; simpl; [apply reads_raise |].
  apply reads_bind; [apply reads_ask |]. intros [|[|item items]]; try apply reads_ret.
  destruct (Nat.ltb _ _); [apply reads_ret | apply IH].
Qed.

Lemma reads_list_labeled_prs fuel labels : reads (list_labeled_prs fuel labels).
Proof. apply reads_foldM. intros found _. apply reads_pulls_from. Qed.

Lemma reads_list_labeled_issues fuel labels : reads (list_labeled_issues fuel labels).
Proof. apply reads_foldM. intros found label. apply reads_issues_from. Qed.

(** [should_review_pr] posts nothing: at most it prints the skip line. *)
Lemma should_review_pr_effect n force w r w' :
  should_review_pr n force w = (r, w') -> exists out, effect w w' [] out.
Proof.
  unfold should_review_pr. destruct force.
  { intros [= _ <-]. exists []. apply effect_refl. }
  intros [(files & w1 & H1 & H2) | (e & H1 & _)]%bind_inv.
  2: { apply reads_get_pr_files in H1 as ->. exists []. apply effect_refl. }
  apply reads_get_pr_files in H1 as ->. destruct files as [|f files].
  - injection H2 as _ <-. exists [NoFileChanges n]. apply effect_logged.
  - assert (w' = w) as ->; [| exists []; apply effect_refl].
    revert H2. apply reads_bind; [apply reads_get_issue_comments |].
    intros comments. destruct (get_last_claude_review comments); [| apply reads_ret].
    apply reads_bind; [destruct (updated_at _); [apply reads_ret | apply reads_raise] |].
    intros t. apply reads_bind; [apply reads_get_pr_latest_commit_time |].
    intros [m|]; apply reads_ret.
Qed.

(** [post_comment]: one comment more on success, nothing at all on
    failure. *)
Lemma post_comment_effect n text w r w' :
  post_comment n text w = (r, w') ->
  (r = Ok tt /\ effect w w' [(n, text)] [PostedComment n])
  \/ (exists e, r = Raise e /\ w' = w).
Proof.
  unfold post_comment. destruct (accepts_comment (github w) n).
  - intros [= <- <-]. left. split; [done |]. by split.
  - intros [= <- <-]. right. eauto.
Qed.

End Effects.

(** ** Reviews posted by a run *)

Section Runs.
Import Docs Review Spec.

Variable json_loads : string -> option json.
Variable build_pr_prompt : Item -> string -> list string -> string -> string.
Variable build_issue_prompt : Item -> string -> string.

Lemma reads_then {A B} (c : M A) (k : A -> M B) w r w' :
  reads c -> bind c k w = (r, w') ->
  (exists a, k a w = (r, w')) \/ (exists e, r = Raise e /\ w' = w).
Proof.
  intros Hc [(a & w1 & H1 & H2) | (e & H1 & ->)]%bind_inv.
  - apply Hc in H1 as ->. eauto.
  - apply Hc in H1 as ->. eauto.
Qed.

(** [review_pr] posts one comment, the generated text with the marker in
    front, or fails having posted nothing. *)
Lemma review_pr_effect n w r w' :
  review_pr build_pr_prompt n w = (r, w') ->
  (exists review,
     r = Ok tt /\ effect w w' [(n, with_marker review)] [ReviewingPR n; PostedComment n])
  \/ (exists e, r = Raise e /\ effect w w' [] [ReviewingPR n]).
Proof.
  unfold review_pr. intros [(? & w1 & [= _ <-] & H) | (? & [=] & _)]%bind_inv.
  pose proof (effect_logged w (ReviewingPR n)) as Hlog.
  apply reads_then in H as [[pr H] | (e & -> & ->)]; [| right; eauto | apply reads_ask].
  apply reads_then in H as [[diff H] | (e & -> & ->)]; [| right; eauto | apply reads_get_pr_diff].
  apply reads_then in H as [[files H] | (e & -> & ->)]; [| right; eauto | apply reads_get_pr_files].
  apply reads_then in H as [[paths H] | (e & -> & ->)]; [| right; eauto | apply reads_ask].
  apply reads_then in H as [[docs H] | (e & -> & ->)]; [| right; eauto | apply reads_load_docs].
  apply reads_then in H as [[review H] | (e & -> & ->)]; [| right; eauto | apply reads_ask].
  apply post_comment_effect in H as [[-> H] | (e & -> & ->)]; [| right; eauto].
  left. exists review. split; [done |]. apply (effect_trans _ _ _ _ _ _ _ Hlog H).
Qed.

Lemma review_issue_effect n w r w' :
  review_issue build_issue_prompt n w = (r, w') ->
  (exists review,
     r = Ok tt /\ effect w w' [(n, with_marker review)] [ReviewingIssue n; PostedComment n])
  \/ (exists e, r = Raise e /\ effect w w' [] [ReviewingIssue n]).
Proof.
  unfold review_issue. intros [(? & w1 & [= _ <-] & H) | (? & [=] & _)]%bind_inv.
  pose proof (effect_logged w (ReviewingIssue n)) as Hlog.
  apply reads_then in H as [[item H] | (e & -> & ->)]; [| right; eauto | apply reads_ask].
  apply reads_then in H as [[paths H] | (e & -> & ->)]; [| right; eauto | apply reads_ask].
  apply reads_then in H as [[docs H] | (e & -> & ->)]; [| right; eauto | apply reads_load_docs].
  apply reads_then in H as [[review H] | (e & -> & ->)]; [| right; eauto | apply reads_ask].
  apply post_comment_effect in H as [[-> H] | (e & -> & ->)]; [| right; eauto].
  left. exists review. split; [done |]. apply (effect_trans _ _ _ _ _ _ _ Hlog H).
Qed.

(** A "yes" of [should_review_pr] comes without any printing. *)
Lemma should_review_pr_yes n force w w1 :
  should_review_pr n force w = (Ok true, w1) -> w1 = w.
Proof.
  unfold should_review_pr. destruct force; [by intros [= <-] |].
  intros [[files H] | (e & [=] & _)]%reads_then; [| apply reads_get_pr_files].
  destruct files as [|f files]; [by injection H |].
  revert H. apply reads_bind; [apply reads_get_issue_comments |].
  intros comments. destruct (get_last_claude_review comments); [| apply reads_ret].
  apply reads_bind; [destruct (updated_at _); [apply reads_ret | apply reads_raise] |].
  intros t. apply reads_bind; [apply reads_get_pr_latest_commit_time |].
  intros [m|]; apply reads_ret.
Qed.

(** One pull request of a run: skipped, reviewed with one comment posted
    and the counter one up, or failed with nothing posted. *)
Lemma handle_pr_cases force k n w r w' :
  handle_pr build_pr_prompt force k n w = (r, w') ->
  (exists out, r = Ok k /\ effect w w' [] out)
  \/ (exists review out,
        r = Ok (S k) /\ effect w w' [(n, with_marker review)] out
        /\ should_review_pr n force w = (Ok true, w))
  \/ (exists e out, r = Raise e /\ effect w w' [] out).
Proof.
  unfold handle_pr. intros [(needed & w1 & H1 & H2) | (e & H1 & ->)]%bind_inv.
  2: { apply should_review_pr_effect in H1 as [out H1]. right. right. eauto. }
  destruct needed.
  - apply should_review_pr_yes in H1 as Hw. subst w1.
    apply bind_inv in H2 as [(? & w2 & H2 & [= <- <-]) | (e & H2 & ->)].
    + apply review_pr_effect in H2 as [(review & _ & H2) | (e0 & [=] & _)].
      right. left. eauto 6.
    + apply review_pr_effect in H2 as [(review & [=] & _) | (e0 & _ & H2)].
      right. right. eauto.
  - apply should_review_pr_effect in H1 as [out H1].
    injection H2 as <- <-. left. eexists. split; [done |].
    apply (effect_trans _ _ _ _ _ _ _ H1 (effect_logged w1 (PRUpToDate n))).
Qed.

Lemma handle_issue_cases force k n w r w' :
  handle_issue build_issue_prompt force k n w = (r, w') ->
  (exists out, r = Ok k /\ effect w w' [] out)
  \/ (exists review out,
        r = Ok (S k) /\ effect w w' [(n, with_marker review)] out
        /\ should_review_issue n force w = (Ok true, w))
  \/ (exists e out, r = Raise e /\ effect w w' [] out).
Proof.
  unfold handle_issue. intros [(needed & w1 & H1 & H2) | (e & H1 & ->)]%bind_inv.
  2: { apply reads_should_review_issue in H1 as ->. right. right.
       exists e, []. split; [done | apply effect_refl]. }
  apply reads_should_review_issue in H1 as Hw. subst w1. destruct needed.
  - apply bind_inv in H2 as [(? & w2 & H2 & [= <- <-]) | (e & H2 & ->)].
    + apply review_issue_effect in H2 as [(review & _ & H2) | (e0 & [=] & _)].
      right. left. eauto 6.
    + apply review_issue_effect in H2 as [(review & [=] & _) | (e0 & _ & H2)].
      right. right. eauto.
  - injection H2 as <- <-. left. eexists. split; [done |].
    apply effect_logged.
Qed.

Lemma marked_with_marker review : marked (with_marker review).
Proof. apply with_marker_marked. Qed.

Lemma tally_of_cases k n w r w' :
  (exists out, r = Ok k /\ effect w w' [] out)
  \/ (exists review out, r = Ok (S k) /\ effect w w' [(n, with_marker review)] out)
  \/ (exists e out, r = Raise e /\ effect w w' [] out) ->
  tally k w r w'.
Proof.
  intros [(out & -> & H) | [(review & out & -> & H) | (e & out & -> & H)]].
  - exists [], out. split_and!; [done | constructor | simpl; lia].
  - exists [(n, with_marker review)], out. split_and!; [done | | simpl; lia].
    repeat constructor. apply marked_with_marker.
  - exists [], out. split_and!; [done | constructor | done].
Qed.

Lemma tally_refl k w : tally k w (Ok k) w.
Proof. exists [], []. split_and!; [apply effect_refl | constructor | simpl; lia]. Qed.

Lemma tally_trans k k1 w w1 r w' :
  tally k w (Ok k1) w1 -> tally k1 w1 r w' -> tally k w r w'.
Proof.
  intros (new1 & out1 & H1 & Hm1 & ->) (new2 & out2 & H2 & Hm2 & Hr).
  exists (new1 ++ new2), (out1 ++ out2). split_and!.
  - by apply (effect_trans _ w1).
  - by apply Forall_app.
  - destruct r; [| done]. rewrite length_app. lia.
Qed.

Lemma tally_raise k k' w e w' : tally k w (Raise e) w' -> tally k' w (Raise e) w'.
Proof. intros (new & out & H & Hm & _). by exists new, out. Qed.

Lemma foldM_tally {A} (f : nat -> A -> M nat) :
  (forall k a w r w', f k a w = (r, w') -> tally k w r w') ->
  forall l k w r w', foldM f l k w = (r, w') -> tally k w r w'.
Proof.
  intros Hf. induction l as [|a l IH]; intros k w r w'; simpl.
  - intros [= <- <-]. apply tally_refl.
  - intros [(k1 & w1 & H1 & H2) | (e & H1 & ->)]%bind_inv.
    + apply (tally_trans _ k1 _ w1); [by eapply Hf | by apply IH].
    + by eapply Hf.
Qed.

Lemma handle_pr_tally force k n w r w' :
  handle_pr build_pr_prompt force k n w = (r, w') -> tally k w r w'.
Proof.
  intros H%handle_pr_cases. apply (tally_of_cases k n).
  destruct H as [? | [(review & out & ? & ? & _) | ?]]; eauto 6.
Qed.

Lemma handle_issue_tally force k n w r w' :
  handle_issue build_issue_prompt force k n w = (r, w') -> tally k w r w'.
Proof.
  intros H%handle_issue_cases. apply (tally_of_cases k n).
  destruct H as [? | [(review & out & ? & ? & _) | ?]]; eauto 6.
Qed.

Lemma handle_target_tally force k t w r w' :
  handle_target build_pr_prompt build_issue_prompt force k t w = (r, w') -> tally k w r w'.
Proof.
  unfold handle_target. destruct t as [| | |s| |];
    try (intros [= <- <-]; exists [], []; split_and!; [apply effect_refl | constructor | done]).
  destruct (PyStr.startswith s "pr:"); [| destruct (PyStr.startswith s "issue:")].
  - intros [[n H] | (e & -> & ->)]%reads_then.
    + by apply handle_pr_tally in H.
    + exists [], []. split_and!; [apply effect_refl | constructor | done].
    + unfold int. destruct (py_int _); [apply reads_ret | apply reads_raise].
  - intros [[n H] | (e & -> & ->)]%reads_then.
    + by apply handle_issue_tally in H.
    + exists [], []. split_and!; [apply effect_refl | constructor | done].
    + unfold int. destruct (py_int _); [apply reads_ret | apply reads_raise].
  - intros [= <- <-]. apply tally_refl.
Qed.

Lemma explicit_run_tally force targets w r w' :
  explicit_run build_pr_prompt build_issue_prompt force targets w = (r, w') ->
  tally 0 w r w'.
Proof.
  unfold explicit_run. intros [[ts H] | (e & -> & ->)]%reads_then; [| | apply reads_ask].
  - revert H. apply foldM_tally. intros k t. apply handle_target_tally.
  - exists [], []. split_and!; [apply effect_refl | constructor | done].
Qed.

Lemma tally_after_print k e0 w r w' :
  tally k (logged w e0) r w' -> tally k w r w'.
Proof.
  intros (new & out & H & Hm & Hr). exists new, ([e0] ++ out). split_and!; [| done..].
  apply (effect_trans _ _ _ [] [e0] _ _ (effect_logged w e0) H).
Qed.

Lemma scan_run_tally fuel force labels w r w' :
  scan_run build_pr_prompt build_issue_prompt fuel force labels w = (r, w') ->
  tally 0 w r w'.
Proof.
  unfold scan_run. intros [(? & w1 & [= _ <-] & H) | (? & [=] & _)]%bind_inv.
  apply (tally_after_print _ ScanMode).
  apply reads_then in H as [[prs H] | (e & -> & ->)]; [| | apply reads_list_labeled_prs].
  2: { exists [], []. split_and!; [apply effect_refl | constructor | done]. }
  apply bind_inv in H as [(k1 & w2 & H1 & H2) | (e & H1 & ->)].
  2: { revert H1. apply foldM_tally. intros k pr. apply handle_pr_tally. }
  apply (tally_trans _ k1 _ w2).
  { revert H1. apply foldM_tally. intros k pr. apply handle_pr_tally. }
  apply reads_then in H2 as [[issues H2] | (e & -> & ->)]; [| | apply reads_list_labeled_issues].
  - revert H2. apply foldM_tally. intros k item. apply handle_issue_tally.
  - exists [], []. split_and!; [apply effect_refl | constructor | done].
Qed.

End Runs.

(** ** Properties of a whole run *)

Section RunProperties.
Import Docs Review Spec.

Variable json_loads : string -> option json.
Variable build_pr_prompt : Item -> string -> list string -> string -> string.
Variable build_issue_prompt : Item -> string -> string.

(** X11: [main] keeps its count honest: every comment a run posts begins with
    the marker; a run that ends normally prints, as its last line, the
    number of comments it posted; and a run that fails leaves the comments
    it had posted before the failure in place. *)
Theorem reported_count_is_number_of_posted_reviews fuel environ w r w' :
  main json_loads build_pr_prompt build_issue_prompt fuel environ w = (r, w') ->
  exists new out,
    Forall (fun nt => marked (snd nt)) new
    /\ match r with
       | Ok _ => effect w w' new (out ++ [Done (length new)])
       | Raise _ => effect w w' new out
       end.
Proof.
  unfold main.
  assert (forall name, exists new out,
            Forall (fun nt => marked (snd nt)) new
            /\ effect w (logged w (MissingConfig name)) new out) as Hmissing.
  { intros name. exists [], [MissingConfig name]. split; [constructor | apply effect_logged]. }
  repeat case_bool_decide; try (intros [= <- <-]; apply Hmissing).
  intros [(k & w1 & Hrun & [= <- <-]) | (e & Hrun & ->)]%bind_inv.
  - assert (tally 0 w (Ok k) w1) as (new & out & Heff & Hmarked & ->).
    { destruct (truthy _); [by eapply explicit_run_tally | by eapply scan_run_tally]. }
    exists new, out. split; [done |].
    pose proof (effect_trans _ _ _ _ _ _ _ Heff
                  (effect_logged w1 (Done (0 + length new)))) as Hall.
    by rewrite app_nil_r in Hall.
  - assert (tally 0 w (Raise e) w') as (new & out & Heff & Hmarked & _).
    { destruct (truthy _); [by eapply explicit_run_tally | by eapply scan_run_tally]. }
    by exists new, out.
Qed.

(** X12: Without one of the three required settings, unset or empty, [main]
    prints one line naming the first missing one and exits with code 1,
    in every world: nothing is fetched, generated or posted. *)
Theorem missing_setting_exits_before_any_call fuel environ w :
  ANTHROPIC_API_KEY environ = "" \/ GH_TOKEN environ = "" \/ REPO environ = "" ->
  exists name,
    main json_loads build_pr_prompt build_issue_prompt fuel environ w
    = (Raise (SystemExit 1), logged w (MissingConfig name))
    /\ name = (if bool_decide (ANTHROPIC_API_KEY environ = "") then "ANTHROPIC_API_KEY"
               else if bool_decide (GH_TOKEN environ = "") then "GH_TOKEN"
               else "GITHUB_REPOSITORY").
Proof.
  intros Hmissing. unfold main. eexists. split; [| reflexivity].
  repeat case_bool_decide; try done. by destruct Hmissing as [? | [? | ?]].
Qed.

(** A target that begins with neither [pr:] nor [issue:] is passed over
    in silence. *)
Lemma unaddressed_targets_skipped force ts :
  Forall unaddressed ts ->
  forall k w,
    foldM (handle_target build_pr_prompt build_issue_prompt force) ts k w = (Ok k, w).
Proof.
  induction 1 as [|t ts (s & -> & Hpr & Hissue) _ IH]; intros k w; [done |].
  simpl. unfold bind. simpl. rewrite Hpr, Hissue. simpl. apply IH.
Qed.

(** X13: An explicit target list none of whose entries begins with [pr:] or
    [issue:] makes the run do nothing but print a count of zero: there is
    no warning, and no fall-back to the label scan. *)
Theorem unaddressed_targets_give_an_empty_run fuel environ w ts :
  ANTHROPIC_API_KEY environ <> "" -> GH_TOKEN environ <> "" -> REPO environ <> "" ->
  json_loads (getenv environ "REVIEW_TARGETS" "[]") = Some (JArray ts) ->
  ts <> [] -> Forall unaddressed ts ->
  main json_loads build_pr_prompt build_issue_prompt fuel environ w
  = (Ok tt, logged w (Done 0)).
Proof.
  intros Hkey Htoken Hrepo Hloads Hne Hts.
  rewrite main_configured by done. unfold parse_targets. rewrite Hloads.
  destruct ts as [|t ts]; [done |]. cbn [truthy].
  unfold bind, explicit_run, bind, ask. cbn [iterate].
  by rewrite (unaddressed_targets_skipped _ _ Hts).
Qed.

Lemma single_characters_unaddressed l :
  Forall unaddressed (map (fun c => JString (String c "")) l).
Proof.
  induction l as [|c l IH]; constructor; [| done].
  exists (String c ""). split_and!; [done | |];
    unfold PyStr.startswith; simpl; by rewrite andb_false_r.
Qed.

(** X14: When [REVIEW_TARGETS] holds a JSON string instead of a list, the loop
    walks its characters, none of which is a target: the run prints a
    count of zero and does nothing else. *)
Theorem string_instead_of_list_gives_an_empty_run fuel environ w s :
  ANTHROPIC_API_KEY environ <> "" -> GH_TOKEN environ <> "" -> REPO environ <> "" ->
  json_loads (getenv environ "REVIEW_TARGETS" "[]") = Some (JString s) ->
  s <> "" ->
  main json_loads build_pr_prompt build_issue_prompt fuel environ w
  = (Ok tt, logged w (Done 0)).
Proof.
  intros Hkey Htoken Hrepo Hloads Hne.
  rewrite main_configured by done. unfold parse_targets. rewrite Hloads.
  cbn [truthy]. rewrite (bool_decide_eq_false_2 _ Hne). cbn [negb].
  unfold bind, explicit_run, bind, ask. cbn [iterate].
  by rewrite (unaddressed_targets_skipped _ _ (single_characters_unaddressed _)).
Qed.

Lemma last_review_after_post l c :
  has_marker c = true -> get_last_claude_review (l ++ [c]) = Some c.
Proof.
  intros Hc. unfold get_last_claude_review. rewrite rev_unit. simpl. by rewrite Hc.
Qed.

Lemma comments_after_post gh n l text :
  issue_comments gh n = Ok (Items l) ->
  issue_comments (replay gh [(n, text)]) n = Ok (Items (l ++ [stamped gh text])).
Proof. intros Hl. simpl. by rewrite bool_decide_eq_true_2, Hl. Qed.

Lemma stamped_has_marker gh review : has_marker (stamped gh (with_marker review)) = true.
Proof. apply with_marker_has_marker. Qed.

(** X9: An issue is reviewed once: in a world where the server lists a posted
    comment at the end of the issue's comments, the run that has just
    reviewed an issue finds, on the next look without the force flag, that
    no review is needed, prints the skip line and leaves the counter. *)
Theorem reviewed_issue_is_skipped_next_time n k w w' l :
  issue_comments (github w) n = Ok (Items l) ->
  handle_issue build_issue_prompt false k n w = (Ok (S k), w') ->
  handle_issue build_issue_prompt false (S k) n w'
  = (Ok (S k), logged w' (IssueAlreadyReviewed n)).
Proof.
  intros Hl [(out & [= Hk] & _) | [(review & out & _ & Heff & _) | (e & out & [=] & _)]]%handle_issue_cases;
    [lia |].
  unfold handle_issue, bind, should_review_issue, bind.
  rewrite (get_issue_comments_eq n w' (Items (l ++ [stamped (github w) (with_marker review)]))).
  2: { rewrite (effect_github _ _ _ _ Heff). by apply comments_after_post. }
  cbn [as_list]. rewrite last_review_after_post by apply stamped_has_marker. done.
Qed.

(** X10: A pull request is reviewed again only after a newer commit: right
    after a run has reviewed it, with the comment stamped by the server's
    clock, the oracle without the force flag says "yes" exactly when some
    commit is dated strictly after that clock. *)
Theorem reviewed_pr_is_skipped_until_newer_commit n k w w' l r :
  issue_comments (github w) n = Ok (Items l) ->
  pull_commits (github w) n = Ok r ->
  handle_pr build_pr_prompt false k n w = (Ok (S k), w') ->
  exists b,
    should_review_pr n false w' = (Ok b, w')
    /\ (b = true <-> exists t, t ∈ omap commit_date (as_list r) /\ now (github w) < t).
Proof.
  intros Hl Hr [(out & [= Hk] & _) | [(review & out & _ & Heff & Hyes) | (e & out & [=] & _)]]%handle_pr_cases;
    [lia |].
  assert (exists p, pull_files (github w) n = Ok p /\ as_list p <> []) as (p & Hp & Hne).
  { revert Hyes. unfold should_review_pr, bind, get_pr_files, bind, ask.
    destruct (pull_files (github w) n) as [p|]; [| done].
    intros Hyes. exists p. split; [done |]. unfold ret in Hyes.
    destruct (as_list p); [done | done]. }
  pose proof (effect_github _ _ _ _ Heff) as Hgh.
  rewrite (should_review_pr_reviewed n w' p
             (Items (l ++ [stamped (github w) (with_marker review)])) r
             (stamped (github w) (with_marker review)) (now (github w))).
  - eexists. split; [reflexivity |]. rewrite <- latest_exceeds.
    destruct (latest _) as [m|].
    + rewrite Z.ltb_lt. split; [eauto |]. by intros (m' & [= <-] & ?).
    + split; [done |]. by intros (m & ? & _).
  - by rewrite Hgh.
  - done.
  - rewrite Hgh. by apply comments_after_post.
  - apply last_review_after_post, stamped_has_marker.
  - done.
  - by rewrite Hgh.
Qed.

End RunProperties.

Section RunExamples.
Import Docs Review Spec Fixtures.

Lemma reported_count_witness :
  let w := world (repo ["src/lasso.rs"] [] [] [commit_at 50]) in
  let run := main loads_sample plain_pr_prompt plain_issue_prompt 2 credentials w in
  fst run = Ok tt
  /\ (posted (snd run)).*1 = [7; 12]
  /\ exists new out,
       Forall (fun nt => marked (snd nt)) new
       /\ effect w (snd run) new (out ++ [Done (length new)]).
Proof.
  intros w run. split_and!; [by vm_compute | by vm_compute |].
  exact (reported_count_is_number_of_posted_reviews loads_sample plain_pr_prompt
           plain_issue_prompt 2 credentials w (Ok tt) (snd run) eq_refl).
Defined.

Lemma missing_setting_witness :
  let environ : gmap string string := {[ "ANTHROPIC_API_KEY" := "key"; "GH_TOKEN" := "" ]} in
  let w := world (repo ["src/lasso.rs"] [] [] [commit_at 50]) in
  GH_TOKEN environ = ""
  /\ main loads_sample plain_pr_prompt plain_issue_prompt 2 environ w
     = (Raise (SystemExit 1), logged w (MissingConfig "GH_TOKEN")).
Proof.
  intros environ w. split; [reflexivity |].
  destruct (missing_setting_exits_before_any_call loads_sample plain_pr_prompt
              plain_issue_prompt 2 environ w) as (name & Hmain & Hname).
  { right. left. reflexivity. }
  rewrite Hmain, Hname. reflexivity.
Defined.

Lemma unaddressed_targets_witness :
  let environ := <["REVIEW_TARGETS" := "[" +:+ quoted "wiki:3" +:+ "]"]> credentials in
  let w := world (repo ["src/lasso.rs"] [] [] [commit_at 50]) in
  main loads_sample plain_pr_prompt plain_issue_prompt 2 environ w
  = (Ok tt, logged w (Done 0)).
Proof.
  intros environ w.
  apply (unaddressed_targets_give_an_empty_run loads_sample plain_pr_prompt
           plain_issue_prompt 2 environ w [JString "wiki:3"]); try by vm_compute.
  repeat constructor. exists "wiki:3". by vm_compute.
Defined.

Lemma string_instead_of_list_witness :
  let environ := <["REVIEW_TARGETS" := quoted "pr:7"]> credentials in
  let w := world (repo ["src/lasso.rs"] [] [] [commit_at 50]) in
  main loads_sample plain_pr_prompt plain_issue_prompt 2 environ w
  = (Ok tt, logged w (Done 0)).
Proof.
  intros environ w.
  apply (string_instead_of_list_gives_an_empty_run loads_sample plain_pr_prompt
           plain_issue_prompt 2 environ w "pr:7"); by vm_compute.
Defined.

Lemma reviewed_issue_witness :
  let w := world (repo [] [] [remark_at 10] []) in
  let first := handle_issue plain_issue_prompt false 0 12 w in
  fst first = Ok 1%nat
  /\ handle_issue plain_issue_prompt false 1 12 (snd first)
     = (Ok 1%nat, logged (snd first) (IssueAlreadyReviewed 12)).
Proof.
  intros w first. split; [reflexivity |].
  apply (reviewed_issue_is_skipped_next_time plain_issue_prompt 12 0 w (snd first)
           [remark_at 10]); reflexivity.
Defined.

Lemma reviewed_pr_witness_after_post :
  let w := world (repo ["src/lasso.rs"] [] [] [commit_at 50; commit_at 999]) in
  let first := handle_pr plain_pr_prompt false 0 7 w in
  fst first = Ok 1%nat
  /\ should_review_pr 7 false (snd first) = (Ok false, snd first)
  /\ exists b,
       should_review_pr 7 false (snd first) = (Ok b, snd first)
       /\ (b = true <->
           exists t, t ∈ omap commit_date (as_list (Items [commit_at 50; commit_at 999]))
                     /\ now (github w) < t).
Proof.
  intros w first. split_and!; [reflexivity | reflexivity |].
  apply (reviewed_pr_is_skipped_until_newer_commit plain_pr_prompt 7 0 w (snd first)
           [] (Items [commit_at 50; commit_at 999])); reflexivity.
Defined.

End RunExamples.

(** ** Listing the labelled items *)

Section Listing.
Import Docs Review Spec.

(** The inner loops of both listings: items are appended when [keep] says
    so and no item with the same number is there yet. *)
Lemma collect_inv (keep : Item -> bool) (Q : Item -> Prop) items :
  (forall x, x ∈ items -> keep x = true -> Q x) ->
  forall acc,
    Forall Q acc -> NoDup (number <$> acc) ->
    let acc' := fold_left (fun acc x =>
                             if keep x && negb (listed (number x) acc)
                             then acc ++ [x] else acc) items acc in
    Forall Q acc' /\ NoDup (number <$> acc').
Proof.
  induction items as [|x items IH]; intros HQ acc Hacc Hnd; [done |].
  cbn [fold_left]. apply IH.
  - intros y Hy. apply HQ. by right.
  - destruct (keep x) eqn:Hkeep; [| done]. destruct (listed (number x) acc); [done |].
    simpl. apply Forall_app. split; [done |]. repeat constructor. apply HQ; [by left | done].
  - destruct (keep x) eqn:Hkeep; [| done].
    destruct (listed (number x) acc) eqn:Hlisted; [done |]. simpl.
    rewrite fmap_app. apply NoDup_app. split_and!; [done | | by apply NoDup_singleton].
    intros m Hm ->%list_elem_of_singleton.
    apply list_elem_of_fmap in Hm as (y & Hy & Hin).
    apply not_true_iff_false in Hlisted. apply Hlisted.
    unfold listed. apply existsb_exists. exists y.
    split; [by apply list_elem_of_In | by apply bool_decide_eq_true].
Qed.

Lemma pulls_from_inv fuel labels w :
  forall page found found' w',
    labelled_pulls (github w) labels found ->
    pulls_from fuel labels page found w = (Ok found', w') ->
    labelled_pulls (github w) labels found'.
Proof.
  induction fuel as [|fuel IH]; intros page found found' w' Hfound; [done |].
  cbn [pulls_from]. unfold bind, ask.
  destruct (open_pulls (github w) page) as [[|prs]|] eqn:Hpage; [by intros [= <- _] | | done].
  destruct prs as [|pr prs]; [by intros [= <- _] |].
  set (batch := pr :: prs) in *.
  destruct Hfound as [HQ Hnd].
  pose proof (collect_inv (carries_label labels) _ batch
                (fun x Hx Hkeep => conj Hkeep (ex_intro _ page (ex_intro _ batch (conj Hpage Hx))))
                found HQ Hnd) as Hinv.
  destruct (Nat.ltb _ _); [by intros [= <- _] |].
  by apply IH.
Qed.

Lemma issues_from_inv fuel labels label w :
  label ∈ labels ->
  forall page found found' w',
    labelled_issues (github w) labels found ->
    issues_from fuel label page found w = (Ok found', w') ->
    labelled_issues (github w) labels found'.
Proof.
  intros Hlabel.
  induction fuel as [|fuel IH]; intros page found found' w' Hfound; [done |].
  cbn [issues_from]. unfold bind, ask.
  destruct (open_issues (github w) label page) as [[|items]|] eqn:Hpage;
    [by intros [= <- _] | | done].
  destruct items as [|item items]; [by intros [= <- _] |].
  set (batch := item :: items) in *.
  destruct Hfound as [HQ Hnd].
  pose proof (collect_inv (fun x => negb (is_pull_request x)) _ batch
                (fun x Hx Hkeep =>
                   conj (proj1 (negb_true_iff _) Hkeep)
                        (ex_intro _ label (ex_intro _ page (ex_intro _ batch
                           (conj Hlabel (conj Hpage Hx))))))
                found HQ Hnd) as Hinv.
  destruct (Nat.ltb _ _); [by intros [= <- _] |].
  by apply IH.
Qed.

Lemma foldM_reads_inv {A S} (f : S -> A -> M S) (P : S -> Prop) w l :
  (forall s a, reads (f s a)) ->
  (forall s a s', a ∈ l -> P s -> f s a w = (Ok s', w) -> P s') ->
  forall s s' w', P s -> foldM f l s w = (Ok s', w') -> P s'.
Proof.
  intros Hreads. induction l as [|a l IH]; intros Hstep s s' w' Hs; simpl.
  - by intros [= <- _].
  - intros [(s1 & w1 & H1 & H2) | (e & _ & [=])]%bind_inv.
    pose proof (Hreads _ _ _ _ _ H1) as ->.
    apply (IH (fun s a s' Ha => Hstep s a s' (list_elem_of_further _ _ _ Ha)) s1 s' w');
      [| done].
    apply (Hstep s a s1); [by left | done | done].
Qed.

(** X16: [list_labeled_prs] returns open pull requests that carry one of the
    review labels, compared in lower case, each taken from a page the
    server returned, and no two of them with the same number; it changes
    nothing. *)
Theorem labeled_prs_carry_a_label_and_are_distinct fuel review_labels w found w' :
  list_labeled_prs fuel review_labels w = (Ok found, w') ->
  w' = w
  /\ NoDup (number <$> found)
  /\ forall pr, pr ∈ found ->
       (exists name, name ∈ Review.labels pr /\ PyStr.lower name ∈ review_labels)
       /\ exists page prs, open_pulls (github w) page = Ok (Items prs) /\ pr ∈ prs.
Proof.
  intros Hrun. pose proof (reads_list_labeled_prs _ _ _ _ _ Hrun) as ->.
  split; [done |].
  assert (labelled_pulls (github w) review_labels found) as [HQ Hnd].
  { revert Hrun. unfold list_labeled_prs.
    apply (foldM_reads_inv _ (labelled_pulls (github w) review_labels)).
    - intros s a. apply reads_pulls_from.
    - intros s a s' _ Hs H. by apply (pulls_from_inv _ _ _ _ _ _ _ Hs H).
    - split; constructor. }
  split; [done |]. intros pr Hpr.
  destruct (proj1 (Forall_forall _ _) HQ pr Hpr) as [Hcarries Hpage].
  split; [| done].
  unfold carries_label in Hcarries. apply bool_decide_eq_true in Hcarries.
  apply set_choose_L in Hcarries as (l & [Hl ?]%elem_of_intersection).
  apply elem_of_list_to_set, list_elem_of_In, in_map_iff in Hl as (name & <- & Hname).
  exists name. split; [by apply list_elem_of_In | done].
Qed.

(** X19: [list_labeled_issues] returns items that are not pull requests, each
    taken from a page the server returned for one of the review labels, and
    no two of them with the same number; it changes nothing. *)
Theorem labeled_issues_are_issues_and_distinct fuel labels w found w' :
  list_labeled_issues fuel labels w = (Ok found, w') ->
  w' = w
  /\ NoDup (number <$> found)
  /\ forall item, item ∈ found ->
       is_pull_request item = false
       /\ exists label page items,
            label ∈ labels /\ open_issues (github w) label page = Ok (Items items)
            /\ item ∈ items.
Proof.
  intros Hrun. pose proof (reads_list_labeled_issues _ _ _ _ _ Hrun) as ->.
  split; [done |].
  assert (labelled_issues (github w) labels found) as [HQ Hnd].
  { revert Hrun. unfold list_labeled_issues.
    apply (foldM_reads_inv _ (labelled_issues (github w) labels)).
    - intros s a. apply reads_issues_from.
    - intros s a s' Ha Hs H. apply elem_of_elements in Ha.
      by apply (issues_from_inv _ _ _ _ Ha _ _ _ _ Hs H).
    - split; constructor. }
  split; [done |]. intros item Hitem.
  by apply (proj1 (Forall_forall _ _) HQ item Hitem).
Qed.

End Listing.

Section ListingMore.
Import Docs Review Spec Fixtures.

Lemma pulls_from_returns review_labels w k :
  forall fuel page found,
    (k < fuel)%nat ->
    (forall j, (j < k)%nat -> exists prs, open_pulls (github w) (page + j) = Ok (Items prs)) ->
    (exists p, open_pulls (github w) (page + k) = Ok p /\ (length (as_list p) < 100)%nat) ->
    exists found', pulls_from fuel review_labels page found w = (Ok found', w).
Proof.
  induction k as [|k IH]; intros fuel page found Hfuel Hfull Hlast;
    (destruct fuel as [|fuel]; [lia |]); cbn [pulls_from]; unfold bind, ask.
  - destruct Hlast as (p & Hp & Hshort). rewrite Nat.add_0_r in Hp. rewrite Hp.
    destruct p as [|[|pr prs]]; [by eexists | by eexists |].
    apply Nat.ltb_lt in Hshort. cbn [as_list] in Hshort. rewrite Hshort. by eexists.
  - destruct (Hfull 0%nat) as (prs & Hp); [lia |]. rewrite Nat.add_0_r in Hp. rewrite Hp.
    destruct prs as [|pr prs]; [by eexists |].
    destruct (Nat.ltb _ _); [by eexists |].
    apply IH; [lia | |].
    + intros j Hj. destruct (Hfull (S j)) as (prs' & Hprs'); [lia |].
      exists prs'. by rewrite <- Hprs', Nat.add_succ_r.
    + destruct Hlast as (p & Hp' & Hshort). exists p. by rewrite <- Hp', Nat.add_succ_r.
Qed.

(** X18: Paging ends: when the server answers every page up to some page with
    a list and that page is short (fewer than 100 items, or no list at
    all), [list_labeled_prs] returns a list and leaves the world alone,
    provided it may ask for that many pages. *)
Theorem labeled_prs_listing_ends_at_a_short_page fuel review_labels w k :
  (k < fuel)%nat ->
  (forall j, (j < k)%nat -> exists prs, open_pulls (github w) (1 + j) = Ok (Items prs)) ->
  (exists p, open_pulls (github w) (1 + k) = Ok p /\ (length (as_list p) < 100)%nat) ->
  exists found, list_labeled_prs fuel review_labels w = (Ok found, w).
Proof.
  intros Hfuel Hfull Hlast. unfold list_labeled_prs.
  generalize (@nil Item). induction (elements review_labels) as [|label l IH]; intros found.
  - by eexists.
  - destruct (pulls_from_returns review_labels w k fuel 1 found Hfuel Hfull Hlast)
      as (found' & Hfound').
    cbn [foldM]. unfold bind. rewrite Hfound'. apply IH.
Qed.

Lemma labeled_prs_listing_witness :
  let w := world (repo ["src/lasso.rs"] [] [] []) in
  list_labeled_prs 1 (REVIEW_LABELS credentials) w = (Ok [lasso_pr], w)
  /\ exists found, list_labeled_prs 1 (REVIEW_LABELS credentials) w = (Ok found, w).
Proof.
  intros w. split; [by vm_compute |].
  apply (labeled_prs_listing_ends_at_a_short_page 1 (REVIEW_LABELS credentials) w 0).
  - lia.
  - intros j Hj. lia.
  - exists (Items [lasso_pr]). split; [reflexivity | simpl; lia].
Defined.

Lemma labeled_prs_witness :
  let w := world (repo ["src/lasso.rs"] [] [] []) in
  list_labeled_prs 2 (REVIEW_LABELS credentials) w = (Ok [lasso_pr], w)
  /\ NoDup (number <$> [lasso_pr])
  /\ forall pr, pr ∈ [lasso_pr] ->
       exists name, name ∈ Review.labels pr /\ PyStr.lower name ∈ REVIEW_LABELS credentials.
Proof.
  intros w.
  assert (list_labeled_prs 2 (REVIEW_LABELS credentials) w = (Ok [lasso_pr], w)) as Hrun
    by by vm_compute.
  destruct (labeled_prs_carry_a_label_and_are_distinct _ _ _ _ _ Hrun) as (_ & Hnd & Hall).
  split_and!; [exact Hrun | exact Hnd |].
  intros pr Hpr. exact (proj1 (Hall pr Hpr)).
Defined.

Lemma labeled_issues_witness :
  let w := world (repo ["src/lasso.rs"] [] [] []) in
  list_labeled_issues 2 (REVIEW_LABELS credentials) w = (Ok [lens_issue], w)
  /\ NoDup (number <$> [lens_issue])
  /\ forall item, item ∈ [lens_issue] -> is_pull_request item = false.
Proof.
  intros w.
  assert (list_labeled_issues 2 (REVIEW_LABELS credentials) w = (Ok [lens_issue], w)) as Hrun
    by by vm_compute.
  destruct (labeled_issues_are_issues_and_distinct _ _ _ _ _ Hrun) as (_ & Hnd & Hall).
  split_and!; [exact Hrun | exact Hnd |].
  intros item Hitem. exact (proj1 (Hall item Hitem)).
Defined.

Lemma lower_nonempty s : s <> "" -> PyStr.lower s <> "".
Proof. destruct s; [done |]. intros _. unfold PyStr.lower. by simpl. Qed.

(** X20: [REVIEW_LABELS]: every label of the set is a comma-separated piece of
    the setting, stripped of surrounding blanks and lower-cased; the empty
    label is never in the set, so empty pieces (a trailing comma, a blank
    setting) trigger nothing. *)
Theorem review_labels_are_normalised environ label :
  label ∈ REVIEW_LABELS environ ->
  label <> ""
  /\ PyStr.lower label = label
  /\ exists piece,
       piece ∈ PyStr.split ","%char (getenv environ "REVIEW_LABELS" "claude_review,review")
       /\ label = PyStr.lower (PyStr.strip piece).
Proof.
  unfold REVIEW_LABELS. rewrite elem_of_list_to_set.
  intros (piece & <- & Hpiece)%list_elem_of_In%in_map_iff.
  apply list_elem_of_In, list_elem_of_filter in Hpiece as [Hne Hpiece].
  split_and!; [by apply lower_nonempty | apply lower_idempotent | by exists piece].
Qed.

Lemma review_labels_witness :
  let environ : gmap string string := {[ "REVIEW_LABELS" := " Needs-Review , ,claude_review," ]} in
  elements (REVIEW_LABELS environ) = ["claude_review"; "needs-review"]
  /\ ("needs-review" ∈ REVIEW_LABELS environ)
  /\ "needs-review" <> "" /\ PyStr.lower "needs-review" = "needs-review".
Proof.
  intros environ.
  assert ("needs-review" ∈ REVIEW_LABELS environ) as Hin by by vm_compute.
  destruct (review_labels_are_normalised environ "needs-review" Hin) as (Hne & Hlow & _).
  split_and!; [by vm_compute | exact Hin | exact Hne | exact Hlow].
Defined.

End ListingMore.

(** ** More on the license gate *)

Section LicenseMore.
Import LicenseGate Spec.

Lemma findall_chars_inv l :
  forall cur tok,
    Forall (fun c => is_token_char c = true) cur ->
    tok ∈ findall_chars cur l ->
    tok <> []
    /\ Forall (fun c => is_token_char c = true) tok
    /\ exists pre post, rev cur ++ l = pre ++ tok ++ post.
Proof.
  induction l as [|c l IH]; intros cur tok Hcur; simpl.
  - destruct cur as [|c0 cur]; [by intros ?%elem_of_nil |].
    intros ->%list_elem_of_singleton. split_and!.
    + simpl. intros [? ?]%app_eq_nil. done.
    + by apply Forall_rev.
    + exists [], []. by rewrite !app_nil_r.
  - destruct (is_token_char c) eqn:Hc.
    + intros Htok. destruct (IH (c :: cur) tok) as (Hne & Hall & pre & post & Heq);
        [by constructor | done |].
      split_and!; [done..|]. exists pre, post. rewrite <- Heq. simpl.
      by rewrite <- app_assoc.
    + destruct cur as [|c0 cur].
      * intros Htok. destruct (IH [] tok) as (Hne & Hall & pre & post & Heq);
          [constructor | done |].
        split_and!; [done..|]. exists (c :: pre), post. simpl in *. by rewrite Heq.
      * intros [-> | Htok]%elem_of_cons.
        -- split_and!.
           ++ simpl. intros [? ?]%app_eq_nil. done.
           ++ by apply Forall_rev.
           ++ by exists [], (c :: l).
        -- destruct (IH [] tok) as (Hne & Hall & pre & post & Heq);
             [constructor | done |].
           split_and!; [done..|]. exists (rev (c0 :: cur) ++ c :: pre), post.
           simpl in *. rewrite Heq. by rewrite <- !app_assoc.
Qed.

(** X21: Every token [extract_tokens] returns is a non-empty piece of the
    expression made of letters, digits, dots, plus and minus signs only,
    and is none of the operator words. *)
Theorem tokens_are_pieces_of_the_expression expr t :
  t ∈ extract_tokens expr ->
  t <> ""
  /\ Forall (fun c => is_token_char c = true) (PyStr.chars t)
  /\ PyStr.contains t (or_empty expr) = true
  /\ (t ∉ OPERATORS).
Proof.
  intros [Hin Hop]%extract_tokens_spec. unfold findall in Hin.
  apply list_elem_of_fmap in Hin as (tok & -> & Htok).
  destruct (findall_chars_inv _ [] tok (Forall_nil_2 _) Htok) as (Hne & Hall & pre & post & Heq).
  split_and!; [| by rewrite chars_of_chars | | done].
  - intros Hempty. apply Hne. by rewrite <- (chars_of_chars tok), Hempty.
  - unfold PyStr.contains. apply occurs_spec. rewrite chars_of_chars. by exists pre, post.
Qed.

Lemma tokens_witness :
  ("Apache-2.0" ∈ extract_tokens (Some "(MIT OR Apache-2.0) AND Unicode-3.0"))
  /\ elements (extract_tokens (Some "(MIT OR Apache-2.0) AND Unicode-3.0"))
     = ["MIT"; "Unicode-3.0"; "Apache-2.0"]
  /\ PyStr.contains "Apache-2.0" "(MIT OR Apache-2.0) AND Unicode-3.0" = true.
Proof.
  assert ("Apache-2.0" ∈ extract_tokens (Some "(MIT OR Apache-2.0) AND Unicode-3.0")) as Hin
    by by vm_compute.
  split_and!; [exact Hin | by vm_compute |].
  exact (proj1 (proj2 (proj2 (tokens_are_pieces_of_the_expression _ _ Hin)))).
Defined.

Lemma append_cons a s t : String a s +:+ t = String a (s +:+ t).
Proof. done. Qed.

(** X22: The verdict and the reason of [is_acceptable_expression] go together:
    the reason is "ok" exactly when the expression is accepted, and an
    expression without tokens (none, empty, blank, operators only) is
    rejected with the reason "no SPDX tokens found". *)
Theorem verdict_and_reason_agree expr :
  (fst (is_acceptable_expression expr) = true <-> snd (is_acceptable_expression expr) = "ok")
  /\ (extract_tokens expr = ∅ <->
      is_acceptable_expression expr = (false, "no SPDX tokens found")).
Proof.
  unfold is_acceptable_expression. case_bool_decide as Htokens.
  { split; [by split | by split]. }
  split.
  - repeat case_match; simpl; split; try done; by rewrite !append_cons.
  - split; [done |]. repeat case_match; try done; by rewrite !append_cons.
Qed.

Lemma size_check_crate found crate :
  (length (violations (check_crate found crate)) + length (unknowns (check_crate found crate))
   = length (violations found) + length (unknowns found)
     + (if crate_passes crate then 0 else 1))%nat.
Proof.
  unfold check_crate, crate_passes. case_bool_decide.
  - destruct (allowlisted _); simpl; rewrite ?length_app; simpl; lia.
  - destruct (is_acceptable_expression _) as [[] reason]; simpl;
      rewrite ?length_app; simpl; lia.
Qed.

Lemma size_check_all data :
  forall found,
    (length (violations (fold_left check_crate data found))
     + length (unknowns (fold_left check_crate data found))
     = length (violations found) + length (unknowns found)
       + length (List.filter (fun c => negb (crate_passes c)) data))%nat.
Proof.
  induction data as [|crate data IH]; intros found; simpl; [lia |].
  rewrite IH, size_check_crate. destruct (crate_passes crate); simpl; lia.
Qed.

(** X23: The gate as a whole: the number of findings is the number of crates
    that do not pass; the return code is 0 when every crate passes (its
    license expression, stripped, is acceptable, or it is missing and the
    crate is allowlisted) and 1 otherwise; a passing gate prints the one
    line that says so.  An empty report passes. *)
Theorem gate_passes_iff_every_crate_passes data :
  (length (violations (check_all data)) + length (unknowns (check_all data))
   = length (List.filter (fun c => negb (crate_passes c)) data))%nat
  /\ (fst (main data) = 0 <-> Forall (fun c => crate_passes c = true) data)
  /\ (fst (main data) = 0 \/ fst (main data) = 1)
  /\ (fst (main data) = 0 ->
      snd (main data)
      = ["License gate passed: all crates have acceptable license options and unknowns are allowlisted."])
  /\ main [] = (0, ["License gate passed: all crates have acceptable license options and unknowns are allowlisted."]).
Proof.
  pose proof (size_check_all data {| violations := []; unknowns := [] |}) as Hsize.
  fold (check_all data) in Hsize. simpl in Hsize.
  assert (length (List.filter (fun c => negb (crate_passes c)) data) = 0%nat
          <-> Forall (fun c => crate_passes c = true) data) as Hfilter.
  { clear Hsize. induction data as [|c data IH]; simpl; [split; [constructor | done] |].
    destruct (crate_passes c) eqn:Hc; simpl.
    - rewrite IH. split; [by constructor | by inversion 1].
    - split; [done |]. inversion 1. congruence. }
  assert ((length (List.filter (fun c => negb (crate_passes c)) data) = 0%nat
           /\ main data
              = (0, ["License gate passed: all crates have acceptable license options and unknowns are allowlisted."]))
          \/ (length (List.filter (fun c => negb (crate_passes c)) data) <> 0%nat
              /\ fst (main data) = 1)) as Hcases.
  { unfold main.
    destruct (violations (check_all data)) as [|v vs], (unknowns (check_all data)) as [|u us];
      simpl in Hsize; [left | right | right | right]; split; try done; lia. }
  split_and!.
  - done.
  - rewrite <- Hfilter. destruct Hcases as [[Hnone ->] | [Hsome ->]]; simpl; [done |].
    split; [done | by intros ?].
  - destruct Hcases as [[_ ->] | [_ ->]]; [by left | by right].
  - destruct Hcases as [[_ ->] | [_ ->]]; [done | done].
  - done.
Qed.

(** X24: The tables and the token pattern fit: every allowed identifier, taken
    alone as an expression, is accepted, and every banned identifier taken
    alone is rejected. *)
Theorem allowed_ids_pass_and_banned_ids_fail_alone id :
  (id ∈ ALLOWED_LICENSE_IDS -> is_acceptable_expression (Some id) = (true, "ok"))
  /\ (id ∈ BANNED_ONLY_IDS -> fst (is_acceptable_expression (Some id)) = false).
Proof.
  split; intros Hid%elem_of_elements; revert id Hid; apply Forall_forall;
    apply (bool_decide_eq_true_1 _ (Decision0 := Forall_dec _ _)); by vm_compute.
Qed.

Lemma allowed_ids_witness :
  ("Ubuntu-font-1.0" ∈ ALLOWED_LICENSE_IDS)
  /\ is_acceptable_expression (Some "Ubuntu-font-1.0") = (true, "ok").
Proof.
  assert ("Ubuntu-font-1.0" ∈ ALLOWED_LICENSE_IDS) as Hin by by vm_compute.
  split; [exact Hin |].
  exact (proj1 (allowed_ids_pass_and_banned_ids_fail_alone "Ubuntu-font-1.0") Hin).
Defined.

End LicenseMore.

(** ** Target numbers *)

Section TargetNumbers.
Import PyStr Docs Review Spec Fixtures.

Variable build_pr_prompt : Item -> string -> list string -> string -> string.
Variable build_issue_prompt : Item -> string -> string.

Lemma digits_of_uint d :
  forall acc,
    digits (Z.of_nat acc) true (chars (NilEmpty.string_of_uint d))
    = Some (Z.of_nat (Nat.of_uint_acc d acc)).
Proof.
  induction d; intros acc; simpl; [done | ..];
    rewrite Nat.tail_mul_spec;
    match goal with
    | |- context [nat_of_ascii ?c] =>
        let v := eval vm_compute in (nat_of_ascii c) in change (nat_of_ascii c) with v
    end;
    match goal with
    | |- digits ?z true _ = Some (Z.of_nat (Nat.of_uint_acc _ ?m)) =>
        replace z with (Z.of_nat m) by lia
    end; apply IHd.
Qed.

Lemma digits_of_nat n : digits 0 false (chars (str_nat n)) = Some (Z.of_nat n).
Proof.
  rewrite <- (DecimalNat.Unsigned.of_to n) at 2.
  unfold str_nat, NilZero.string_of_uint, Nat.of_uint.
  destruct (Nat.to_uint n) as [|d|d|d|d|d|d|d|d|d|d]; simpl; [done | ..];
    match goal with
    | |- digits ?z true _ = Some (Z.of_nat (Nat.of_uint_acc _ ?m)) =>
        change z with (Z.of_nat m)
    end; apply digits_of_uint.
Qed.

Lemma digit_chars d : Forall (fun c => is_digit c = true) (chars (NilEmpty.string_of_uint d)).
Proof. induction d; simpl; by repeat constructor. Qed.

Lemma str_nat_digits n :
  chars (str_nat n) <> [] /\ Forall (fun c => is_digit c = true) (chars (str_nat n)).
Proof.
  unfold str_nat, NilZero.string_of_uint.
  destruct (Nat.to_uint n) eqn:E; simpl; (split; [done |]);
    repeat constructor; apply digit_chars.
Qed.

Lemma digit_not_int_space c : is_digit c = true -> is_int_space c = false.
Proof. by destruct c as [[] [] [] [] [] [] [] []]. Qed.

Lemma skip_int_space_digits l :
  Forall (fun c => is_digit c = true) l -> skip_int_space l = l.
Proof.
  intros Hl. destruct l as [|c l]; [done |]. simpl.
  rewrite digit_not_int_space; [done | by inversion Hl].
Qed.

Lemma int_trim_digits l :
  Forall (fun c => is_digit c = true) l -> int_trim l = l.
Proof.
  intros Hl. unfold int_trim.
  by rewrite (skip_int_space_digits _ Hl), (skip_int_space_digits _ (Forall_rev Hl)),
       rev_involutive.
Qed.

Lemma filter_digits l :
  Forall (fun c => is_digit c = true) l -> List.filter is_digit l = l.
Proof. induction 1 as [|c l Hc _ IH]; simpl; [done |]. by rewrite Hc, IH. Qed.

(** [int] reads back the decimal text of a natural number, unless the
    text is longer than [MAX_STR_DIGITS]. *)
Lemma py_int_of_str n :
  py_int (str_nat n)
  = if Nat.leb (length (chars (str_nat n))) MAX_STR_DIGITS
    then Some (Z.of_nat n) else None.
Proof.
  destruct (str_nat_digits n) as [Hne Hdigits].
  unfold py_int. rewrite (int_trim_digits _ Hdigits).
  pose proof (digits_of_nat n) as Hvalue.
  assert (match chars (str_nat n) with
          | "-"%char :: l' => (true, l')
          | "+"%char :: l' => (false, l')
          | _ => (false, chars (str_nat n))
          end = (false, chars (str_nat n))) as ->.
  { destruct (chars (str_nat n)) as [|c l]; [done |].
    assert (is_digit c = true) as Hc by by inversion Hdigits.
    by destruct c as [[] [] [] [] [] [] [] []]. }
  rewrite (filter_digits _ Hdigits), Nat.ltb_antisym, Hvalue.
  by destruct (Nat.leb _ _).
Qed.

(** X15: The targets of the workflow reach the right item as long as
    [int] takes the number: for a natural number whose decimal text has
    at most 4300 digits, [pr:] followed by that text is handled as that
    pull request and [issue:] followed by it as that issue; with more
    digits [int] raises [ValueError] and nothing is handled. *)
Theorem numbered_targets_reach_their_items force k n :
  handle_target build_pr_prompt build_issue_prompt force k (JString ("pr:" +:+ str_nat n))
  = (if Nat.leb (length (chars (str_nat n))) MAX_STR_DIGITS
     then handle_pr build_pr_prompt force k (Z.of_nat n)
     else raise ValueError)
  /\ handle_target build_pr_prompt build_issue_prompt force k (JString ("issue:" +:+ str_nat n))
     = (if Nat.leb (length (chars (str_nat n))) MAX_STR_DIGITS
        then handle_issue build_issue_prompt force k (Z.of_nat n)
        else raise ValueError).
Proof.
  unfold handle_target.
  change (startswith ("pr:" +:+ str_nat n) "pr:") with true.
  change (startswith ("issue:" +:+ str_nat n) "pr:") with false.
  change (startswith ("issue:" +:+ str_nat n) "issue:") with true.
  cbv iota.
  change (slice_from 3 ("pr:" +:+ str_nat n)) with (of_chars (chars (str_nat n))).
  change (slice_from 6 ("issue:" +:+ str_nat n)) with (of_chars (chars (str_nat n))).
  rewrite of_chars_chars. unfold int. rewrite py_int_of_str.
  by destruct (Nat.leb _ _).
Qed.

End TargetNumbers.

(** ** More text, no fewer documents *)

Section SelectorMonotone.
Import PyStr Docs Spec.

Lemma lower_append a b : lower (a +:+ b) = lower a +:+ lower b.
Proof. unfold lower. by rewrite chars_append, map_app, of_chars_app. Qed.

Lemma keyword_hits_inside before text_lower after kw :
  keyword_hits text_lower kw = true ->
  keyword_hits (before +:+ text_lower +:+ after) kw = true.
Proof.
  unfold keyword_hits. rewrite !search_spec.
  intros (pre & w & post & Ht & Hw).
  exists (chars before ++ pre), w, (post ++ chars after). split; [| done].
  by rewrite !chars_append, Ht, <- !app_assoc.
Qed.

Lemma rule_selected_inside disk before text_lower after rule :
  rule_selected disk text_lower rule = true ->
  rule_selected disk (before +:+ text_lower +:+ after) rule = true.
Proof.
  unfold rule_selected. rewrite !andb_true_iff, !existsb_exists.
  intros [(kw & Hkw & Hhit) Hdisk]. split; [| done].
  exists kw. split; [done |]. by apply keyword_hits_inside.
Qed.

(** X3: Text around a text costs no document: every document selected for a
    text is selected for any text that contains it, so a keyword in the
    title, the description or a file name is enough. *)
Theorem more_text_selects_no_fewer_documents disk before text after p :
  p ∈ select_docs disk text ->
  p ∈ select_docs disk (before +:+ text +:+ after).
Proof.
  rewrite !select_docs_closed, !elem_of_app.
  intros [Halways | Hrule]; [by left | right].
  apply list_elem_of_fmap in Hrule as (rule & -> & Hrule).
  apply list_elem_of_In, filter_In in Hrule as [Hin Hsel].
  apply list_elem_of_fmap. exists rule. split; [done |].
  apply list_elem_of_In, filter_In. split; [done |].
  rewrite !lower_append. by apply rule_selected_inside.
Qed.

Lemma more_text_witness :
  let p := strategy "2026-02-22_registry_layer_plan.md" in
  (p ∈ select_docs Fixtures.only_registry_plan "lens registry")
  /\ (p ∈ select_docs Fixtures.only_registry_plan
            ("Fix crash " +:+ "lens registry" +:+ " src/app.rs")).
Proof.
  intros p.
  assert (p ∈ select_docs Fixtures.only_registry_plan "lens registry") as Hin.
  { apply (bool_decide_eq_true_1 _). by vm_compute. }
  split; [exact Hin |].
  exact (more_text_selects_no_fewer_documents _ "Fix crash " "lens registry" " src/app.rs" p Hin).
Defined.

End SelectorMonotone.

(** ** No labelled pull request of a visited page is missed *)

Section ListingComplete.
Import Docs Review Spec Fixtures.

Lemma listed_app n acc x :
  listed n (acc ++ [x]) = listed n acc || bool_decide (number x = n).
Proof. unfold listed. rewrite existsb_app. simpl. by rewrite orb_false_r. Qed.

Lemma collect_complete (keep : Item -> bool) items :
  forall acc,
    let acc' := fold_left (fun acc x =>
                             if keep x && negb (listed (number x) acc)
                             then acc ++ [x] else acc) items acc in
    (forall n, listed n acc = true -> listed n acc' = true)
    /\ (forall x, x ∈ items -> keep x = true -> listed (number x) acc' = true).
Proof.
  induction items as [|x items IH]; intros acc; cbn [fold_left].
  { split; [done |]. by intros x ?%elem_of_nil. }
  set (acc1 := if keep x && negb (listed (number x) acc) then acc ++ [x] else acc).
  destruct (IH acc1) as [Hmono Hall].
  assert (forall n, listed n acc = true -> listed n acc1 = true) as Hstep.
  { intros n Hn. unfold acc1. destruct (_ && _); [| done]. by rewrite listed_app, Hn. }
  split; [by auto |].
  intros y [-> | Hy]%elem_of_cons Hkeep; [| by apply Hall].
  apply Hmono. unfold acc1. rewrite Hkeep. simpl.
  destruct (listed (number x) acc) eqn:Hlisted; simpl; [done |].
  by rewrite listed_app, bool_decide_eq_true_2, orb_true_r.
Qed.

Lemma pulls_from_grows review_labels w fuel :
  forall page found found' w',
    pulls_from fuel review_labels page found w = (Ok found', w') ->
    forall n, listed n found = true -> listed n found' = true.
Proof.
  induction fuel as [|fuel IH]; intros page found found' w'; [done |].
  cbn [pulls_from]. unfold bind, ask.
  destruct (open_pulls (github w) page) as [[|prs]|]; [by intros [= <- _] | | done].
  destruct prs as [|pr prs]; [by intros [= <- _] |].
  destruct (collect_complete (carries_label review_labels) (pr :: prs) found) as [Hmono _].
  destruct (Nat.ltb _ _); [intros [= <- _]; exact Hmono |].
  intros Hrec n Hn. apply (IH _ _ _ _ Hrec). by apply Hmono.
Qed.

Lemma pulls_from_complete review_labels w prs pr k :
  pr ∈ prs -> carries_label review_labels pr = true ->
  forall fuel page found found' w',
    pulls_from fuel review_labels page found w = (Ok found', w') ->
    (forall j, (j < k)%nat ->
       exists l, open_pulls (github w) (page + j) = Ok (Items l) /\ (100 <= length l)%nat) ->
    open_pulls (github w) (page + k) = Ok (Items prs) ->
    listed (number pr) found' = true.
Proof.
  intros Hpr Hcarries.
  induction k as [|k IH]; intros fuel page found found' w';
    (destruct fuel as [|fuel]; [done |]); cbn [pulls_from]; unfold bind, ask;
    intros Hrun Hfull Hpage.
  - rewrite Nat.add_0_r in Hpage. rewrite Hpage in Hrun.
    destruct prs as [|pr0 prs0]; [by apply elem_of_nil in Hpr |].
    destruct (collect_complete (carries_label review_labels) (pr0 :: prs0) found)
      as [_ Hall].
    specialize (Hall pr Hpr Hcarries).
    destruct (Nat.ltb _ _); [by injection Hrun as <- _ |].
    by apply (pulls_from_grows _ _ _ _ _ _ _ Hrun).
  - destruct (Hfull 0%nat) as (l & Hl & Hlen); [lia |].
    rewrite Nat.add_0_r in Hl. rewrite Hl in Hrun.
    destruct l as [|x l]; [simpl in Hlen; lia |].
    destruct (Nat.ltb (length (x :: l)) 100) eqn:Hshort.
    { apply Nat.ltb_lt in Hshort. lia. }
    apply (IH _ _ _ _ _ Hrun).
    + intros j Hj. destruct (Hfull (S j)) as (l' & Hl' & Hlen'); [lia |].
      exists l'. by rewrite <- Hl', Nat.add_succ_r.
    + by rewrite <- Hpage, Nat.add_succ_r.
Qed.

(** X17: No labelled pull request of a visited page is missed: when the pages
    before a page are full (100 items) and the listing returns, every pull
    request of that page that carries a review label is in the result,
    under its number. *)
Theorem labeled_prs_of_visited_pages_are_found fuel review_labels w found w' prs pr k :
  list_labeled_prs fuel review_labels w = (Ok found, w') ->
  review_labels <> ∅ ->
  (forall j, (j < k)%nat ->
     exists l, open_pulls (github w) (1 + j) = Ok (Items l) /\ (100 <= length l)%nat) ->
  open_pulls (github w) (1 + k) = Ok (Items prs) ->
  pr ∈ prs -> carries_label review_labels pr = true ->
  exists y, y ∈ found /\ number y = number pr.
Proof.
  intros Hrun Hne Hfull Hpage Hpr Hcarries.
  assert (listed (number pr) found = true) as Hlisted.
  { revert Hrun. unfold list_labeled_prs.
    destruct (elements review_labels) as [|label l] eqn:Hlabels.
    { by apply elements_empty_inv, leibniz_equiv in Hlabels. }
    cbn [foldM]. intros [(found1 & w1 & H1 & H2) | (e & _ & [=])]%bind_inv.
    pose proof (reads_pulls_from _ _ _ _ _ _ _ H1) as ->.
    pose proof (pulls_from_complete _ _ _ _ k Hpr Hcarries _ _ _ _ _ H1 Hfull Hpage)
      as Hfirst.
    clear H1 Hlabels. revert found1 Hfirst H2.
    induction l as [|label' l IH]; intros found1 Hfirst; cbn [foldM].
    - by intros [= <- _].
    - intros [(found2 & w2 & H1 & H2) | (e & _ & [=])]%bind_inv.
      pose proof (reads_pulls_from _ _ _ _ _ _ _ H1) as ->.
      apply (IH found2); [| done].
      by apply (pulls_from_grows _ _ _ _ _ _ _ H1). }
  unfold listed in Hlisted. apply existsb_exists in Hlisted as (y & Hy & Heq).
  exists y. split; [by apply list_elem_of_In | by apply bool_decide_eq_true in Heq].
Qed.

Lemma labeled_prs_found_witness :
  let w := world (repo ["src/lasso.rs"] [] [] []) in
  list_labeled_prs 2 (REVIEW_LABELS credentials) w = (Ok [lasso_pr], w)
  /\ exists y, y ∈ [lasso_pr] /\ number y = number lasso_pr.
Proof.
  intros w.
  assert (list_labeled_prs 2 (REVIEW_LABELS credentials) w = (Ok [lasso_pr], w)) as Hrun
    by by vm_compute.
  split; [exact Hrun |].
  apply (labeled_prs_of_visited_pages_are_found 2 (REVIEW_LABELS credentials) w
           [lasso_pr] w [lasso_pr] lasso_pr 0 Hrun).
  - by vm_compute.
  - intros j Hj. lia.
  - reflexivity.
  - by left.
  - by vm_compute.
Defined.

End ListingComplete.
